(** * oop_regex_toolkit: the regex tester and its exceptions

    A shallow embedding of the sources under [src/].  They delegate
    pattern compilation and matching to Python's standard [re] module.
    The repository code is embedded over an interface [ReModule] of that
    module, so that what is proved about the cache and the error paths
    holds for any implementation of [re].  Where a result depends on
    what the match objects of [re] are like, the documented behaviour
    of these objects is stated once, as [ReSpec], and the theorems hold
    for every implementation that keeps it.  The module [Sre] further
    down is an executable model of CPython's [re] for the grammar of
    section 4.1 of the specification; it is proved to keep [ReSpec], and
    it is used where a statement depends on what the engine computes on
    given inputs. *)

From Stdlib Require Import ZArith NArith Lia Bool List Ascii String.
From Stdlib Require Import Decimal DecimalString DecimalZ DecimalPos DecimalN.
From stdpp Require Import base option list strings gmap.

Local Open Scope Z_scope.
Local Open Scope string_scope.

(** ** Python values used by the sources *)

Module Py.

(** [str(n)] for a Python [int]. *)
Definition str_int (n : Z) : string := NilZero.string_of_int (Z.to_int n).

(** [len(s)] as a Python [int]. *)
Definition len (s : string) : Z := Z.of_nat (String.length s).

(** [s[i:j]] for [0 <= i], [0 <= j] (code points counted from 0). *)
Definition slice (s : string) (i j : nat) : string :=
  String.substring i (j - i) s.

(** [c in s] for a one-character string [c]. *)
Fixpoint contains (c : ascii) (s : string) : bool :=
  match s with
  | EmptyString => false
  | String a s' => Ascii.eqb a c || contains c s'
  end.

(** [s.count(c, 0, n)]: occurrences of [c] among the first [n] characters. *)
Fixpoint count_upto (c : ascii) (s : string) (n : nat) : nat :=
  match n, s with
  | S n', String a s' =>
      ((if Ascii.eqb a c then 1 else 0) + count_upto c s' n')%nat
  | _, _ => 0%nat
  end.

(** [s.rfind(c, 0, n)]: the last index below [n] holding [c], or [-1]. *)
Fixpoint rfind_upto (c : ascii) (s : string) (n : nat) : Z :=
  match n, s with
  | S n', String a s' =>
      match rfind_upto c s' n' with
      | -1 => if Ascii.eqb a c then 0 else -1
      | i => i + 1
      end
  | _, _ => -1
  end.

(** The separator of the cache key. *)
Definition underscore : ascii := "_"%char.

(** The outcome of a call: a returned value or a raised exception. *)
Inductive result (E A : Type) : Type :=
| Return (a : A)
| Raise (e : E).
Arguments Return {E A} a.
Arguments Raise {E A} e.

End Py.
Export Py.

(** ** The interface of the [re] module *)

(** [re.error]: the attributes [msg], [pattern] and [pos].  The last
    two are [None] when the error is raised without them, as
    ["look-behind requires fixed-width pattern"] is. *)
Record re_error : Type := mk_re_error {
  err_msg : string;
  err_pattern : option string;
  err_pos : option nat
}.

Definition newline : ascii := ascii_of_nat 10.

(** [str(e)] for [e : re.error], as [error.__init__] builds it: the
    message alone when [pattern] or [pos] is [None]; otherwise the
    message, [" at position %d"], and the line and column when the
    pattern holds a newline. *)
Definition re_error_str (e : re_error) : string :=
  match err_pattern e, err_pos e with
  | Some pattern, Some pos =>
      let m := err_msg e ++ " at position " ++ str_int (Z.of_nat pos) in
      if contains newline pattern then
        let lineno := Z.of_nat (count_upto newline pattern pos) + 1 in
        let colno := Z.of_nat pos - rfind_upto newline pattern pos in
        m ++ " (line " ++ str_int lineno ++ ", column " ++ str_int colno ++ ")"
      else m
  | _, _ => err_msg e
  end.

(** What a call into [re] can raise: [re.error]; [OverflowError] (a
    repetition count of [MAXREPEAT] or more); [ValueError] (incompatible
    flags); [IndexError] (a replacement template naming a group the
    pattern does not have).  [Unmodelled] marks input outside the executable model [Sre];
    no statement below says that Python raises it. *)
Inductive re_exn : Type :=
| ReError (e : re_error)
| OverflowError (m : string)
| ValueError (m : string)
| IndexError (m : string)
| Unmodelled (what : string).

Class ReModule : Type := {
  (** a compiled pattern, [re.Pattern] *)
  Pattern : Type;
  (** a match object, [re.Match] *)
  Match : Type;
  (** [re.compile(pattern, flags)] *)
  re_compile : string -> Z -> result re_exn Pattern;
  (** [p.match(text)] *)
  pattern_match : Pattern -> string -> option Match;
  (** [p.search(text)] *)
  pattern_search : Pattern -> string -> option Match;
  (** [p.finditer(text)], run to the end *)
  pattern_finditer : Pattern -> string -> list Match;
  (** [p.sub(repl, text)] *)
  pattern_sub : Pattern -> string -> string -> result re_exn string;
  (** [p.groups]: the number of capturing groups *)
  pattern_groups : Pattern -> nat;
  (** [m.group()] *)
  match_group : Match -> string;
  (** [m.group(i)] for [0 <= i <= p.groups]: the text of group [i], or
      [None] when the group took no part in the match *)
  match_group_n : Match -> nat -> option string;
  (** [m.groups()] *)
  match_groups : Match -> list (option string);
  (** [m.span()] *)
  match_span : Match -> Z * Z;
  (** [m.groupdict()] *)
  match_groupdict : Match -> list (string * option string)
}.

(** *** What the library promises of a match object

    The repository hands on what the match objects of [re] give; what
    the sources' results are like therefore rests on the documented
    behaviour of these objects, which is collected here.  The model
    [Sre] is proved to keep it ([sre_spec]). *)

Section Contract.
Context `{RE : ReModule}.

(** [m] is a match object that [p] gave for [text]: the result of
    [p.match(text)] or [p.search(text)], or one of [p.finditer(text)]. *)
Definition returned (p : Pattern) (text : string) (m : Match) : Prop :=
  pattern_match p text = Some m \/
  pattern_search p text = Some m \/
  m ∈ pattern_finditer p text.

Record ReSpec : Prop := {
  (** [m.span()] is a pair of offsets into the text, in order *)
  re_span_bounds : forall p text m,
    returned p text m ->
    0 <= fst (match_span m) /\
    fst (match_span m) <= snd (match_span m) /\
    snd (match_span m) <= len text;
  (** [m.group()] is [m.string[m.start():m.end()]] *)
  re_group_text : forall p text m,
    returned p text m ->
    match_group m
    = slice text (Z.to_nat (fst (match_span m))) (Z.to_nat (snd (match_span m)));
  (** [m.group(0)] is [m.group()] *)
  re_group_zero : forall p text m,
    returned p text m -> match_group_n m 0 = Some (match_group m);
  (** [m.groups()] is the tuple of the subgroups, from 1 up to however
      many groups are in the pattern *)
  re_groups_tuple : forall p text m,
    returned p text m ->
    match_groups m = map (match_group_n m) (seq 1 (pattern_groups p));
  (** [p.finditer(text)] gives non-overlapping matches in the order of
      the text, each further in the text than the one before *)
  re_finditer_order : forall p text i m1 m2,
    pattern_finditer p text !! i = Some m1 ->
    pattern_finditer p text !! S i = Some m2 ->
    snd (match_span m1) <= fst (match_span m2) /\
    (fst (match_span m1) < fst (match_span m2) \/
     snd (match_span m1) < snd (match_span m2))
}.

End Contract.

(** ** exceptions.py *)

Module Exceptions.

Record RegexContext : Type := mkRegexContext {
  pattern : string;
  input_string : option string;
  position : option Z;
  message : option string
}.

(** [RegexBaseError._format_message].  [if self.context.message:] is
    false for [None] and for the empty string. *)
Definition _format_message (context : RegexContext) : string :=
  let msg := "Error with pattern '" ++ pattern context ++ "'" in
  let msg :=
    match message context with
    | Some m => if String.eqb m EmptyString then msg else msg ++ ": " ++ m
    | None => msg
    end in
  let msg :=
    match input_string context with
    | Some i => msg ++ String newline ("Input string: '" ++ i ++ "'")
    | None => msg
    end in
  match position context with
  | Some p => msg ++ String newline ("Position: " ++ str_int p)
  | None => msg
  end.

(** The exceptions leaving [validate_regex] and [find_pattern]: the three
    subclasses of [RegexBaseError], each holding its context, and whatever
    [re.compile] raises besides [re.error], which is not caught. *)
Inductive exn : Type :=
| InvalidRegexError (context : RegexContext)
| PatternNotFoundError (context : RegexContext)
| EmptyPatternError (context : RegexContext)
| Uncaught (e : re_exn).

Section WithRe.
Context `{RE : ReModule}.

Definition validate_regex (pattern : string) : result exn Pattern :=
  if String.eqb pattern EmptyString then
    Raise (EmptyPatternError
             (mkRegexContext pattern None None (Some "Empty pattern provided")))
  else
    match re_compile pattern 0 with
    | Return p => Return p
    | Raise (ReError e) =>
        Raise (InvalidRegexError
                 (mkRegexContext pattern None None (Some (re_error_str e))))
    | Raise e => Raise (Uncaught e)
    end.

Definition find_pattern (pattern text : string) (raise_if_not_found : bool)
  : result exn (option string) :=
  match validate_regex pattern with
  | Raise e => Raise e
  | Return compiled_pattern =>
      let match_ := pattern_search compiled_pattern text in
      match match_ with
      | None =>
          if raise_if_not_found then
            Raise (PatternNotFoundError
                     (mkRegexContext pattern (Some text) (Some 0)
                        (Some "Pattern not found in input string")))
          else Return None
      | Some m => Return (Some (match_group m))
      end
  end.

End WithRe.
End Exceptions.

(** ** regex_tester.py *)

Module RegexTester.

(** [RegexError] holds its message; anything else raised inside [re]
    passes through [compile_pattern] and [replace] uncaught. *)
Inductive exn : Type :=
| RegexError (msg : string)
| Uncaught (e : re_exn).

(** The dataclass [MatchResult].  [groups] and [span] are tuples
    (defaulting to the empty tuple), [named_groups] a dict or [None]. *)
Record MatchResult : Type := mkMatchResult {
  matched : bool;
  value : string;
  groups : list (option string);
  span : list Z;
  named_groups : option (list (string * option string))
}.

Section WithRe.
Context `{RE : ReModule}.

(** A compiled pattern object on the heap.  Its identity [obj_id] is the
    index, in the trace of the calls made to [re.compile], of the call
    that created it. *)
Record PatternObj : Type := mkPatternObj {
  obj_id : nat;
  obj_pattern : Pattern
}.

(** The state a [RegexCompiler] works on: its attribute [_cache], and the
    trace of the calls made to [re.compile]. *)
Record State : Type := mkState {
  _cache : gmap string PatternObj;
  re_calls : list (string * Z)
}.

(** [RegexCompiler.__init__] *)
Definition init : State := mkState ∅ [].

(** [f"{pattern}_{flags}"] *)
Definition cache_key (pattern : string) (flags : Z) : string :=
  pattern ++ "_" ++ str_int flags.

(** [re.compile] keeps a cache of its own, the dict [re._cache] of at
    most [_MAXCACHE] entries in the order they were stored, and returns
    the object it holds for a pattern and flags compiled before.  An
    entry is modelled by its key and the identity of its object. *)
Definition _MAXCACHE : nat := 512.
Definition DEBUG : Z := 128.

Definition re_cache : Type := list ((string * Z) * nat).

Fixpoint re_cache_get (pattern : string) (flags : Z) (cache : re_cache)
  : option nat :=
  match cache with
  | [] => None
  | ((p, f), id) :: cache' =>
      if String.eqb p pattern && Z.eqb f flags then Some id
      else re_cache_get pattern flags cache'
  end.

(** [re._compile(pattern, flags)], made as call number [i] on the cache
    [cache]: the identity of the object it returns, if it returns, and
    the cache afterwards.  A hit returns the object of the cache; a
    pattern that compiles gives a new object, which is stored unless the
    flag [DEBUG] is set, after the oldest entry is dropped from a full
    cache; a pattern that does not compile leaves the cache as it is. *)
Definition re_compile_call (cache : re_cache) (i : nat)
    (pattern : string) (flags : Z) : option nat * re_cache :=
  match re_cache_get pattern flags cache with
  | Some id => (Some id, cache)
  | None =>
      match re_compile pattern flags with
      | Raise _ => (None, cache)
      | Return _ =>
          if negb (Z.land flags DEBUG =? 0)%Z then (Some i, cache)
          else
            (Some i,
             ((if (_MAXCACHE <=? length cache)%nat then tail cache else cache)
                ++ [((pattern, flags), i)])%list)
      end
  end.

(** [re._cache] after the calls of a trace, the first of them being
    call number [i] on the cache [cache]. *)
Fixpoint re_cache_run (cache : re_cache) (i : nat) (calls : list (string * Z))
  : re_cache :=
  match calls with
  | [] => cache
  | (pattern, flags) :: calls' =>
      re_cache_run (snd (re_compile_call cache i pattern flags)) (S i) calls'
  end.

Definition re_cache_after (calls : list (string * Z)) : re_cache :=
  re_cache_run [] 0 calls.

(** The identity of the object [re.compile(pattern, flags)] returns
    after the calls of [calls], when the pattern compiles. *)
Definition re_object_id (calls : list (string * Z)) (pattern : string)
    (flags : Z) : nat :=
  match re_cache_get pattern flags (re_cache_after calls) with
  | Some id => id
  | None => length calls
  end.

(** [RegexCompiler.compile_pattern].  On a miss [re.compile] is called;
    its result is stored and then read back by
    [return self._cache[cache_key]]; a [re.error] is turned into
    [RegexError], and nothing is stored. *)
Definition compile_pattern (pattern : string) (flags : Z) (s : State)
  : result exn PatternObj * State :=
  let cache_key := cache_key pattern flags in
  match _cache s !! cache_key with
  | Some o => (Return o, s)
  | None =>
      let calls := (re_calls s ++ [(pattern, flags)])%list in
      match re_compile pattern flags with
      | Return p =>
          let o := mkPatternObj (re_object_id (re_calls s) pattern flags) p in
          (Return o, mkState (<[cache_key := o]> (_cache s)) calls)
      | Raise (ReError e) =>
          (Raise (RegexError ("Invalid regex pattern: " ++ re_error_str e)),
           mkState (_cache s) calls)
      | Raise e => (Raise (Uncaught e), mkState (_cache s) calls)
      end
  end.

(** [RegexCompiler.clear_cache] *)
Definition clear_cache (s : State) : State := mkState ∅ (re_calls s).

(** The [MatchResult] built from a match object, as in [match] and
    [find_all]. *)
Definition result_of_match (m : Match) : MatchResult :=
  mkMatchResult true (match_group m) (match_groups m)
    [fst (match_span m); snd (match_span m)]
    (Some (match_groupdict m)).

(** [RegexMatcher.match] *)
Definition match_ (pattern text : string) (flags : Z) (s : State)
  : result exn MatchResult * State :=
  match compile_pattern pattern flags s with
  | (Raise e, s') => (Raise e, s')
  | (Return compiled_pattern, s') =>
      match pattern_match (obj_pattern compiled_pattern) text with
      | Some m => (Return (result_of_match m), s')
      | None => (Return (mkMatchResult false EmptyString [] [] None), s')
      end
  end.

(** [RegexMatcher.find_all] *)
Definition find_all (pattern text : string) (flags : Z) (s : State)
  : result exn (list MatchResult) * State :=
  match compile_pattern pattern flags s with
  | (Raise e, s') => (Raise e, s')
  | (Return compiled_pattern, s') =>
      let matches := pattern_finditer (obj_pattern compiled_pattern) text in
      (Return (map result_of_match matches), s')
  end.

(** [RegexMatcher.replace] *)
Definition replace (pattern text replacement : string) (flags : Z) (s : State)
  : result exn string * State :=
  match compile_pattern pattern flags s with
  | (Raise e, s') => (Raise e, s')
  | (Return compiled_pattern, s') =>
      match pattern_sub (obj_pattern compiled_pattern) replacement text with
      | Return r => (Return r, s')
      | Raise e => (Raise (Uncaught e), s')
      end
  end.

(** The enum [PatternType]. *)
Inductive PatternType : Type := EMAIL | PHONE | URL | DATE | CUSTOM.

(** [RegexValidator._PREDEFINED_PATTERNS.get]: the dict has no entry for
    [CUSTOM]. *)
Definition _PREDEFINED_PATTERNS (pattern_type : PatternType) : option string :=
  match pattern_type with
  | EMAIL => Some "^[a-zA-Z0-9._%+-]+@[a-zA-Z0-9.-]+\.[a-zA-Z]{2,}$"
  | PHONE => Some "^\+?1?\d{9,15}$"
  | URL => Some "^(https?:\/\/)?([\da-z\.-]+)\.([a-z\.]{2,6})([\/\w \.-]*)*\/?$"
  | DATE => Some "^\d{4}-(0[1-9]|1[0-2])-(0[1-9]|[12]\d|3[01])$"
  | CUSTOM => None
  end.

(** [RegexValidator.validate_pattern]: [re.error] is caught, anything
    else [re.compile] raises is not. *)
Definition validate_pattern (pattern : string) : result re_exn bool :=
  match re_compile pattern 0 with
  | Return _ => Return true
  | Raise (ReError _) => Return false
  | Raise e => Raise e
  end.

(** [RegexValidator.get_predefined_pattern] *)
Definition get_predefined_pattern (pattern_type : PatternType)
  : result exn (option string) :=
  match pattern_type with
  | CUSTOM => Raise (RegexError "Custom pattern type requires a pattern string")
  | _ => Return (_PREDEFINED_PATTERNS pattern_type)
  end.

(** The states a [RegexCompiler] can be in: those its methods produce
    from a fresh one, while other code may call [re.compile] as well. *)
Inductive reachable : State -> Prop :=
| reachable_init : reachable init
| reachable_compile s pattern flags :
    reachable s -> reachable (snd (compile_pattern pattern flags s))
| reachable_clear s : reachable s -> reachable (clear_cache s)
| reachable_other s pattern flags :
    reachable s ->
    reachable (mkState (_cache s) (re_calls s ++ [(pattern, flags)])%list).

(** Every cache entry was stored under the key of the call that created
    it, and holds what that call returned. *)
Definition cache_ok (s : State) : Prop :=
  forall k o, _cache s !! k = Some o ->
    exists pattern flags,
      k = cache_key pattern flags /\
      re_calls s !! obj_id o = Some (pattern, flags) /\
      re_compile pattern flags = Return (obj_pattern o).

(** Every entry of [re._cache] names the call that created its object. *)
Definition re_cache_ok (calls : list (string * Z)) (cache : re_cache) : Prop :=
  forall pattern flags id,
    re_cache_get pattern flags cache = Some id ->
    calls !! id = Some (pattern, flags).

(** As long as [re._cache] has never been full, it holds the object of
    every entry of the compiler's cache, except those compiled with the
    flag [DEBUG]. *)
Definition cache_linked (s : State) : Prop :=
  (length (re_calls s) <= _MAXCACHE)%nat ->
  forall pattern flags o,
    _cache s !! cache_key pattern flags = Some o ->
    Z.land flags DEBUG = 0 ->
    re_cache_get pattern flags (re_cache_after (re_calls s)) = Some (obj_id o).

End WithRe.
End RegexTester.

(** ** An executable model of the [re] module

    [Sre] follows CPython 3.11's [re/_parser.py] (tokenizer, parser and
    their error messages and positions) and the backtracking matcher of
    [_sre] on [str] patterns and texts whose characters are code points
    below 256.  It covers literals, [.], [^], [$], escapes, character
    sets, capturing, non-capturing and named groups, alternation, greedy
    and lazy repeats, and the flags [IGNORECASE], [MULTILINE] and
    [DOTALL].  What Python accepts beyond that (lookaround, back
    references, inline flags, numeric escapes, possessive repeats, other
    flags) is answered with [Unmodelled]. *)

Module Sre.

Local Open Scope nat_scope.

(** *** Characters *)

Definition ord (c : ascii) : nat := nat_of_ascii c.

Fixpoint in_ranges (n : nat) (rs : list (nat * nat)) : bool :=
  match rs with
  | [] => false
  | (lo, hi) :: rs' => ((lo <=? n) && (n <=? hi)) || in_ranges n rs'
  end.

(** [\d], [\s] and [\w] on code points below 256 (Unicode semantics). *)
Definition is_digit (c : ascii) : bool := in_ranges (ord c) [(48, 57)].
Definition is_space (c : ascii) : bool :=
  in_ranges (ord c) [(9, 13); (28, 32); (133, 133); (160, 160)].
Definition is_word (c : ascii) : bool :=
  in_ranges (ord c)
    [(48, 57); (65, 90); (95, 95); (97, 122); (170, 170); (178, 179);
     (181, 181); (185, 186); (188, 190); (192, 214); (216, 246); (248, 255)].
Definition is_linebreak (c : ascii) : bool := ord c =? 10.

(** [str.isidentifier] and [str.isprintable], character by character. *)
Definition is_id_start (c : ascii) : bool :=
  in_ranges (ord c)
    [(65, 90); (95, 95); (97, 122); (170, 170); (181, 181); (186, 186);
     (192, 214); (216, 246); (248, 255)].
Definition is_id_continue (c : ascii) : bool :=
  is_id_start c || in_ranges (ord c) [(48, 57); (183, 183)].
Definition is_printable (c : ascii) : bool :=
  in_ranges (ord c) [(32, 126); (161, 172); (174, 255)].

Definition is_ascii_letter (c : ascii) : bool :=
  in_ranges (ord c) [(65, 90); (97, 122)].
Definition is_oct_digit (c : ascii) : bool := in_ranges (ord c) [(48, 55)].

(** The code point of [c.lower()] and of [c.upper()]; the upper case of
    two code points below 256 lies above 255. *)
Definition lower (c : ascii) : nat :=
  if in_ranges (ord c) [(65, 90); (192, 214); (216, 222)] then ord c + 32
  else ord c.
Definition upper (c : ascii) : nat :=
  if in_ranges (ord c) [(97, 122); (224, 246); (248, 254)] then ord c - 32
  else if ord c =? 181 then 924
  else if ord c =? 255 then 376
  else ord c.

Definition isidentifier (s : string) : bool :=
  match s with
  | EmptyString => false
  | String c s' =>
      is_id_start c && forallb is_id_continue (list_ascii_of_string s')
  end.

Definition quote : ascii := "'"%char.
Definition dquote : ascii := ascii_of_nat 34.
Definition backslash : ascii := "\"%char.

Definition hex_digit (n : nat) : ascii :=
  if n <? 10 then ascii_of_nat (48 + n) else ascii_of_nat (87 + n).

(** [repr(s)] for a [str]. *)
Definition repr_char (q : ascii) (c : ascii) : string :=
  if Ascii.eqb c backslash then String backslash (String backslash EmptyString)
  else if Ascii.eqb c q then String backslash (String q EmptyString)
  else if ord c =? 9 then "\t"
  else if ord c =? 10 then "\n"
  else if ord c =? 13 then "\r"
  else if is_printable c then String c EmptyString
  else String backslash
         (String "x" (String (hex_digit (ord c / 16))
                        (String (hex_digit (ord c mod 16)) EmptyString))).

Definition repr (s : string) : string :=
  let q := if contains quote s && negb (contains dquote s) then dquote else quote in
  String q (String.concat EmptyString (map (repr_char q) (list_ascii_of_string s))
            ++ String q EmptyString)%string.

(** [d.get(k)] on a dict kept as an association list. *)
Fixpoint assoc_lookup {V} (k : string) (d : list (string * V)) : option V :=
  match d with
  | [] => None
  | (k', v) :: d' => if String.eqb k k' then Some v else assoc_lookup k d'
  end.

(** [int(s)] for a string of ASCII digits. *)
Definition int_of_digits (s : string) : N :=
  fold_left (fun acc c => (10 * acc + N.of_nat (ord c - 48))%N)
            (list_ascii_of_string s) 0%N.

(** *** The parse tree *)

Inductive at_code : Type :=
| AT_BEGINNING | AT_END | AT_BEGINNING_STRING | AT_END_STRING
| AT_BOUNDARY | AT_NON_BOUNDARY.

Inductive category : Type :=
| CATEGORY_DIGIT | CATEGORY_NOT_DIGIT
| CATEGORY_SPACE | CATEGORY_NOT_SPACE
| CATEGORY_WORD | CATEGORY_NOT_WORD.

Inductive set_item : Type :=
| SET_LITERAL (c : ascii)
| SET_RANGE (lo hi : ascii)
| SET_CATEGORY (c : category).

(** The parser's items.  A sequence of items is folded with [Cat], a
    [BRANCH] over several alternatives is nested to the right; the
    parser's rewritings of equal prefixes and one-character alternatives
    into sets, which do not change what is matched, are left out. *)
Inductive regex : Type :=
| Empty
| LITERAL (c : ascii)
| ANY
| IN (negate : bool) (set : list set_item)
| AT (a : at_code)
| Cat (r1 r2 : regex)
| BRANCH (r1 r2 : regex)
| SUBPATTERN (group : option nat) (p : regex)
| MAX_REPEAT (min max : N) (item : regex)
| MIN_REPEAT (min max : N) (item : regex).

Definition MAXREPEAT : N := 4294967295%N.
Definition MAXGROUPS : N := 1073741823%N.

Definition seq (items : list regex) : regex := fold_right Cat Empty items.

(** *** The tokenizer *)

(** A token: one character, or a backslash and the character after it. *)
Inductive tok : Type :=
| Ch (c : ascii)
| Esc (c : ascii).

Definition tok_len (t : option tok) : nat :=
  match t with
  | None => 0
  | Some (Ch _) => 1
  | Some (Esc _) => 2
  end.

Definition tok_str (t : tok) : string :=
  match t with
  | Ch c => String c EmptyString
  | Esc c => String backslash (String c EmptyString)
  end.

(** [Tokenizer]: [rest] is [decoded_string[index:]]. *)
Record Tokenizer : Type := mkTokenizer {
  tk_string : string;
  index : nat;
  next : option tok;
  rest : list ascii
}.

(** The parser's state: the tokenizer, and of [State] the number of
    groups opened so far (group 0 included) and [groupdict]. *)
Record PState : Type := mkPState {
  source : Tokenizer;
  groups : nat;
  groupdict : list (string * nat)
}.

Definition parser (A : Type) : Type := PState -> result re_exn (A * PState).

Definition ret {A} (a : A) : parser A := fun st => Return (a, st).
Definition bind {A B} (m : parser A) (k : A -> parser B) : parser B :=
  fun st =>
    match m st with
    | Return (a, st') => k a st'
    | Raise e => Raise e
    end.
Definition fail {A} (e : re_exn) : parser A := fun _ => Raise e.

Notation "'let*' x ':=' m 'in' k" := (bind m (fun x => k))
  (at level 10, x name, m at level 100, k at level 200, only parsing).
Notation "'let*' ' p ':=' m 'in' k" := (bind m (fun x => let 'p := x in k))
  (at level 10, p strict pattern, m at level 100, k at level 200, only parsing).

(** [Tokenizer.__next] *)
Definition tokenizer_next (s : Tokenizer) : result re_exn Tokenizer :=
  match rest s with
  | [] => Return (mkTokenizer (tk_string s) (index s) None [])
  | c :: r =>
      if Ascii.eqb c backslash then
        match r with
        | [] => Raise (ReError (mk_re_error "bad escape (end of pattern)"
                                  (Some (tk_string s))
                                  (Some (String.length (tk_string s) - 1))))
        | d :: r' => Return (mkTokenizer (tk_string s) (index s + 2) (Some (Esc d)) r')
        end
      else Return (mkTokenizer (tk_string s) (index s + 1) (Some (Ch c)) r)
  end.

(** [Tokenizer.__init__] *)
Definition tokenizer_init (s : string) : result re_exn Tokenizer :=
  tokenizer_next (mkTokenizer s 0 None (list_ascii_of_string s)).

(** [Tokenizer.tell] *)
Definition tell_of (s : Tokenizer) : nat := index s - tok_len (next s).

Definition tell : parser nat := fun st => Return (tell_of (source st), st).
Definition peek : parser (option tok) := fun st => Return (next (source st), st).
Definition get_source : parser Tokenizer := fun st => Return (source st, st).
Definition set_source (s : Tokenizer) : parser unit :=
  fun st => Return (tt, mkPState s (groups st) (groupdict st)).

(** [Tokenizer.get] *)
Definition sourceget : parser (option tok) :=
  fun st =>
    match tokenizer_next (source st) with
    | Return s' => Return (next (source st), mkPState s' (groups st) (groupdict st))
    | Raise e => Raise e
    end.

(** [Tokenizer.match] *)
Definition sourcematch (c : ascii) : parser bool :=
  fun st =>
    match next (source st) with
    | Some (Ch d) =>
        if Ascii.eqb c d then
          match tokenizer_next (source st) with
          | Return s' => Return (true, mkPState s' (groups st) (groupdict st))
          | Raise e => Raise e
          end
        else Return (false, st)
    | _ => Return (false, st)
    end.

(** [Tokenizer.error]: [re.error] at [tell() - offset]. *)
Definition error {A} (msg : string) (offset : nat) : parser A :=
  fun st => Raise (ReError (mk_re_error msg (Some (tk_string (source st)))
                              (Some (tell_of (source st) - offset)))).

(** [Tokenizer.getuntil]; the loop runs at most once per remaining
    character, which [n] bounds. *)
Fixpoint getuntil (n : nat) (terminator : ascii) (name : string) (result : string)
  : parser string :=
  match n with
  | 0 => fail (Unmodelled "getuntil")
  | S n' =>
      let* c := sourceget in
      match c with
      | None =>
          if String.eqb result EmptyString then error ("missing " ++ name)%string 0
          else error ("missing " ++ String terminator ", unterminated name")%string
                     (String.length result)
      | Some t =>
          if String.eqb (tok_str t) (String terminator EmptyString) then
            if String.eqb result EmptyString then error ("missing " ++ name)%string 1
            else ret result
          else getuntil n' terminator name (result ++ tok_str t)%string
      end
  end.

(** [Tokenizer.checkgroupname] *)
Definition checkgroupname (name : string) (offset : nat) : parser unit :=
  if isidentifier name then ret tt
  else error ("bad character in group name " ++ repr name)%string
             (String.length name + offset).

(** [while source.next in DIGITS: lo += sourceget()] *)
Fixpoint get_digits (n : nat) (lo : string) : parser string :=
  match n with
  | 0 => ret lo
  | S n' =>
      let* t := peek in
      match t with
      | Some (Ch c) =>
          if is_digit c then
            let* _ := sourceget in get_digits n' (lo ++ String c EmptyString)%string
          else ret lo
      | _ => ret lo
      end
  end.

Definition remaining : parser nat :=
  fun st => Return (length (rest (source st)) + 3, st).

(** *** The parser *)

(** [ESCAPES]: the characters [\a \b \f \n \r \t \v \\] stand for. *)
Definition ESCAPES (c : ascii) : option ascii :=
  if Ascii.eqb c "a" then Some (ascii_of_nat 7)
  else if Ascii.eqb c "b" then Some (ascii_of_nat 8)
  else if Ascii.eqb c "f" then Some (ascii_of_nat 12)
  else if Ascii.eqb c "n" then Some (ascii_of_nat 10)
  else if Ascii.eqb c "r" then Some (ascii_of_nat 13)
  else if Ascii.eqb c "t" then Some (ascii_of_nat 9)
  else if Ascii.eqb c "v" then Some (ascii_of_nat 11)
  else if Ascii.eqb c backslash then Some backslash
  else None.

(** [CATEGORIES]: the assertions and the character classes. *)
Definition CATEGORIES (c : ascii) : option regex :=
  if Ascii.eqb c "A" then Some (AT AT_BEGINNING_STRING)
  else if Ascii.eqb c "b" then Some (AT AT_BOUNDARY)
  else if Ascii.eqb c "B" then Some (AT AT_NON_BOUNDARY)
  else if Ascii.eqb c "d" then Some (IN false [SET_CATEGORY CATEGORY_DIGIT])
  else if Ascii.eqb c "D" then Some (IN false [SET_CATEGORY CATEGORY_NOT_DIGIT])
  else if Ascii.eqb c "s" then Some (IN false [SET_CATEGORY CATEGORY_SPACE])
  else if Ascii.eqb c "S" then Some (IN false [SET_CATEGORY CATEGORY_NOT_SPACE])
  else if Ascii.eqb c "w" then Some (IN false [SET_CATEGORY CATEGORY_WORD])
  else if Ascii.eqb c "W" then Some (IN false [SET_CATEGORY CATEGORY_NOT_WORD])
  else if Ascii.eqb c "Z" then Some (AT AT_END_STRING)
  else None.

(** The escapes left to [Unmodelled]: [\x], [\u], [\U], [\N] and those
    that start with a digit. *)
Definition numeric_escape (c : ascii) : bool :=
  Ascii.eqb c "x" || Ascii.eqb c "u" || Ascii.eqb c "U" || Ascii.eqb c "N"
  || is_digit c.

Definition bad_escape {A} (c : ascii) : parser A :=
  error ("bad escape " ++ tok_str (Esc c))%string 2.

(** [_class_escape]: an escape inside a character set. *)
Definition _class_escape (c : ascii) : parser set_item :=
  match ESCAPES c with
  | Some l => ret (SET_LITERAL l)
  | None =>
      match CATEGORIES c with
      | Some (IN _ [item]) => ret item
      | _ =>
          if Ascii.eqb c "8" || Ascii.eqb c "9" then bad_escape c
          else if numeric_escape c then fail (Unmodelled "numeric escape")
          else if is_ascii_letter c then bad_escape c
          else ret (SET_LITERAL c)
      end
  end.

(** [_escape]: an escape outside a character set. *)
Definition _escape (c : ascii) : parser regex :=
  match CATEGORIES c with
  | Some code => ret code
  | None =>
      match ESCAPES c with
      | Some l => ret (LITERAL l)
      | None =>
          if numeric_escape c then fail (Unmodelled "numeric escape")
          else if is_ascii_letter c then bad_escape c
          else ret (LITERAL c)
      end
  end.

(** One member of a set: [code1], as a literal, a category or nothing
    else. *)
Definition set_code (t : tok) : parser set_item :=
  match t with
  | Esc c => _class_escape c
  | Ch c => ret (SET_LITERAL c)
  end.

(** The loop of [_parse] over the members of a character set, entered
    after the opening bracket and the optional [^]; [here] is the
    position of the bracket. *)
Fixpoint parse_set (n : nat) (here : nat) (set : list set_item)
  : parser (list set_item) :=
  match n with
  | 0 => fail (Unmodelled "set")
  | S n' =>
      let* this := sourceget in
      match this with
      | None =>
          let* p := tell in error "unterminated character set" (p - here)
      | Some t =>
          if String.eqb (tok_str t) "]" && negb (Nat.eqb (length set) 0) then ret set
          else
            let* code1 := set_code t in
            let* range := sourcematch "-" in
            if range then
              let* that := sourceget in
              match that with
              | None =>
                  let* p := tell in error "unterminated character set" (p - here)
              | Some t2 =>
                  if String.eqb (tok_str t2) "]" then
                    ret (set ++ [code1; SET_LITERAL "-"])%list
                  else
                    let* code2 := set_code t2 in
                    let msg := ("bad character range " ++ tok_str t ++ "-" ++ tok_str t2)%string in
                    let off := tok_len (Some t) + 1 + tok_len (Some t2) in
                    match code1, code2 with
                    | SET_LITERAL lo, SET_LITERAL hi =>
                        if ord hi <? ord lo then error msg off
                        else parse_set n' here (set ++ [SET_RANGE lo hi])%list
                    | _, _ => error msg off
                    end
              end
            else parse_set n' here (set ++ [code1])%list
      end
  end.

Definition is_at (r : regex) : bool :=
  match r with AT _ => true | _ => false end.
Definition is_repeat (r : regex) : bool :=
  match r with MAX_REPEAT _ _ _ | MIN_REPEAT _ _ _ => true | _ => false end.

(** [State.opengroup] as called from [_parse]; the offset of its error
    is [len(name) + 1]. *)
Definition opengroup (name : option string) : parser nat :=
  fun st =>
    let gid := groups st in
    if (MAXGROUPS <? N.of_nat (S gid))%N then Raise (Unmodelled "too many groups")
    else
      match name with
      | None => Return (gid, mkPState (source st) (S gid) (groupdict st))
      | Some nm =>
          match assoc_lookup nm (groupdict st) with
          | Some ogid =>
              error ("redefinition of group name " ++ repr nm ++ " as group "
                     ++ str_int (Z.of_nat gid) ++ "; was group "
                     ++ str_int (Z.of_nat ogid))%string
                    (String.length nm + 1)
                    (mkPState (source st) (S gid) (groupdict st))
          | None =>
              Return (gid, mkPState (source st) (S gid)
                             (groupdict st ++ [(nm, gid)])%list)
          end
      end.

Definition SPECIAL_CHARS : string := ".\[{()*+?^$|".
Definition REPEAT_CHARS : string := "*+?{".
(** The characters after [(?] that open a construct left to
    [Unmodelled]: comments, lookaround, conditionals, atomic groups and
    inline flags. *)
Definition UNMODELLED_EXTENSIONS : string := "#=!<(>-iLmsxatu".

Definition split_last {A} (l : list A) : option (list A * A) :=
  match rev l with
  | [] => None
  | x :: r => Some (rev r, x)
  end.

(** The bounds of a repeat written with braces, read after the opening
    brace; [source_here] is the tokenizer at that point, at position
    [here].  [None]: the brace is a literal, and the tokenizer is back
    at [here]. *)
Definition repeat_braces (here : nat) (source_here : Tokenizer)
  : parser (option (N * N)) :=
  let* nx := peek in
  match nx with
  | Some (Ch "}") => ret None
  | _ =>
      let* n := remaining in
      let* lo := get_digits n EmptyString in
      let* comma := sourcematch "," in
      let* hi := (if comma then get_digits n EmptyString else ret lo) in
      let* close := sourcematch "}" in
      if negb close then
        let* _ := set_source source_here in ret None
      else
        let min := if String.eqb lo EmptyString then 0%N else int_of_digits lo in
        if (MAXREPEAT <=? min)%N then
          fail (OverflowError "the repetition number is too large")
        else if String.eqb hi EmptyString then ret (Some (min, MAXREPEAT))
        else
          let max := int_of_digits hi in
          if (MAXREPEAT <=? max)%N then
            fail (OverflowError "the repetition number is too large")
          else if (max <? min)%N then
            let* p := tell in
            error "min repeat greater than max repeat" (p - here)
          else ret (Some (min, max))
  end.

(** What follows [(?]: whether the group captures, and its name. *)
Definition group_options : parser (bool * option string) :=
  let* char := sourceget in
  match char with
  | None => error "unexpected end of pattern" 0
  | Some (Ch "P") =>
      let* lt := sourcematch "<" in
      if lt then
        let* n := remaining in
        let* name := getuntil n ">" "group name" EmptyString in
        let* _ := checkgroupname name 1 in
        ret (true, Some name)
      else
        let* eq := sourcematch "=" in
        if eq then fail (Unmodelled "named backreference")
        else
          let* char := sourceget in
          match char with
          | None => error "unexpected end of pattern" 0
          | Some t =>
              error ("unknown extension ?P" ++ tok_str t)%string (tok_len (Some t) + 2)
          end
  | Some (Ch ":") => ret (false, None)
  | Some t =>
      match t with
      | Ch c =>
          if contains c UNMODELLED_EXTENSIONS then fail (Unmodelled "extension")
          else error ("unknown extension ?" ++ tok_str t)%string (tok_len (Some t) + 1)
      | Esc _ =>
          error ("unknown extension ?" ++ tok_str t)%string (tok_len (Some t) + 1)
      end
  end.

(** [_parse_sub] (an alternation) and [_parse] (a sequence of items;
    [subpattern] holds those read so far).  Each call consumes a token
    or closes a level, so a [fuel] above twice the pattern's length is
    never used up. *)
Fixpoint _parse_sub (fuel : nat) : parser regex :=
  match fuel with
  | 0 => fail (Unmodelled "fuel")
  | S fuel' =>
      let* item := _parse fuel' [] in
      let* more := sourcematch "|" in
      if more then
        let* items := _parse_sub fuel' in ret (BRANCH item items)
      else ret item
  end
with _parse (fuel : nat) (subpattern : list regex) : parser regex :=
  match fuel with
  | 0 => fail (Unmodelled "fuel")
  | S fuel' =>
      let* this := peek in
      match this with
      | None => ret (seq subpattern)
      | Some (Ch "|") | Some (Ch ")") => ret (seq subpattern)
      | Some (Esc c) =>
          let* _ := sourceget in
          let* code := _escape c in
          _parse fuel' (subpattern ++ [code])%list
      | Some (Ch c) =>
          let* _ := sourceget in
          if negb (contains c SPECIAL_CHARS) then
            _parse fuel' (subpattern ++ [LITERAL c])%list
          else if Ascii.eqb c "[" then
            let* p := tell in
            let here := p - 1 in
            let* negate := sourcematch "^" in
            let* n := remaining in
            let* set := parse_set n here [] in
            _parse fuel' (subpattern ++ [IN negate set])%list
          else if contains c REPEAT_CHARS then
            let* here := tell in
            let* source_here := get_source in
            let* bounds :=
              (if Ascii.eqb c "?" then ret (Some (0, 1)%N)
               else if Ascii.eqb c "*" then ret (Some (0%N, MAXREPEAT))
               else if Ascii.eqb c "+" then ret (Some (1%N, MAXREPEAT))
               else repeat_braces here source_here) in
            match bounds with
            | None => _parse fuel' (subpattern ++ [LITERAL c])%list
            | Some (min, max) =>
                let* p := tell in
                match split_last subpattern with
                | None => error "nothing to repeat" (p - here + 1)
                | Some (before, item) =>
                    if is_at item then error "nothing to repeat" (p - here + 1)
                    else if is_repeat item then error "multiple repeat" (p - here + 1)
                    else
                      let item :=
                        match item with
                        | SUBPATTERN None p => p
                        | _ => item
                        end in
                      let* lazy := sourcematch "?" in
                      if lazy then
                        _parse fuel' (before ++ [MIN_REPEAT min max item])%list
                      else
                        let* possessive := sourcematch "+" in
                        if possessive then fail (Unmodelled "possessive repeat")
                        else _parse fuel' (before ++ [MAX_REPEAT min max item])%list
                end
            end
          else if Ascii.eqb c "." then
            _parse fuel' (subpattern ++ [ANY])%list
          else if Ascii.eqb c "(" then
            let* p := tell in
            let start := p - 1 in
            let* options := sourcematch "?" in
            let* '(capture, name) :=
              (if options then group_options else ret (true, None)) in
            let* group :=
              (if capture then let* g := opengroup name in ret (Some g)
               else ret None) in
            let* p := _parse_sub fuel' in
            let* close := sourcematch ")" in
            if negb close then
              let* t := tell in
              error "missing ), unterminated subpattern" (t - start)
            else _parse fuel' (subpattern ++ [SUBPATTERN group p])%list
          else if Ascii.eqb c "^" then
            _parse fuel' (subpattern ++ [AT AT_BEGINNING])%list
          else if Ascii.eqb c "$" then
            _parse fuel' (subpattern ++ [AT AT_END])%list
          else fail (Unmodelled "special character")
      end
  end.

Definition SRE_FLAG_IGNORECASE : Z := 2.
Definition SRE_FLAG_LOCALE : Z := 4.
Definition SRE_FLAG_MULTILINE : Z := 8.
Definition SRE_FLAG_DOTALL : Z := 16.
Definition SRE_FLAG_UNICODE : Z := 32.

(** The flags the model knows: any combination of the five above. *)
Definition flags_modelled (flags : Z) : bool := (Z.land flags 62 =? flags)%Z.

(** [parse]: the whole pattern.  [fix_flags] rejects [LOCALE] on a [str]
    pattern and turns [UNICODE] on. *)
Definition parse (str : string) (flags : Z) : result re_exn (regex * PState) :=
  match tokenizer_init str with
  | Raise e => Raise e
  | Return src =>
      match _parse_sub (2 * String.length str + 4) (mkPState src 1 []) with
      | Raise e => Raise e
      | Return (p, st) =>
          if negb (Z.land flags SRE_FLAG_LOCALE =? 0)%Z then
            Raise (ValueError "cannot use LOCALE flag with a str pattern")
          else
            match next (source st) with
            | Some _ =>
                Raise (ReError (mk_re_error "unbalanced parenthesis" (Some str)
                                  (Some (tell_of (source st)))))
            | None => Return (p, st)
            end
      end
  end.

(** A compiled pattern: the attributes [pattern], [flags], [groups] and
    [groupindex] of [re.Pattern], and the parse tree in place of the
    byte code of [_sre]. *)
Record SrePattern : Type := mkSrePattern {
  sp_pattern : string;
  sp_flags : Z;
  sp_groups : nat;
  sp_groupindex : list (string * nat);
  sp_code : regex
}.

(** [re.compile(pattern, flags)] *)
Definition compile (pattern : string) (flags : Z) : result re_exn SrePattern :=
  if negb (flags_modelled flags) then Raise (Unmodelled "flags")
  else
    match parse pattern flags with
    | Raise e => Raise e
    | Return (p, st) =>
        Return (mkSrePattern pattern (Z.lor flags SRE_FLAG_UNICODE)
                  (groups st - 1) (groupdict st) p)
    end.

(** *** The matcher *)

(** The marks of a match: for each group [1..n], its span if it took
    part in the match. *)
Definition marks : Type := list (option (nat * nat)).

Definition set_mark (group : nat) (span : nat * nat) (m : marks) : marks :=
  <[group - 1 := Some span]> m.

(** The continuation of a match: what is left to match from a position
    on, with the marks set so far. *)
Definition cont : Type := nat -> marks -> option (nat * marks).

Definition has_flag (flags flag : Z) : bool := negb (Z.land flags flag =? 0)%Z.

Definition category_test (cat : category) (c : ascii) : bool :=
  match cat with
  | CATEGORY_DIGIT => is_digit c
  | CATEGORY_NOT_DIGIT => negb (is_digit c)
  | CATEGORY_SPACE => is_space c
  | CATEGORY_NOT_SPACE => negb (is_space c)
  | CATEGORY_WORD => is_word c
  | CATEGORY_NOT_WORD => negb (is_word c)
  end.

Definition is_upper (n : nat) : bool :=
  in_ranges n [(65, 90); (192, 214); (216, 222)].

(** Membership of the text character [c] in one item of a set.  Under
    [IGNORECASE] the item stands for the lower case of its characters,
    and [c] is lowered before the test. *)
Definition set_item_test (ignore : bool) (item : set_item) (c : ascii) : bool :=
  match item with
  | SET_LITERAL l =>
      if ignore then lower l =? lower c else Ascii.eqb l c
  | SET_RANGE lo hi =>
      if ignore then
        in_ranges (lower c) [(ord lo, ord hi)]
        || (is_upper (lower c - 32) && in_ranges (lower c - 32) [(ord lo, ord hi)])
      else in_ranges (ord c) [(ord lo, ord hi)]
  | SET_CATEGORY cat =>
      if ignore then category_test cat (ascii_of_nat (lower c))
      else category_test cat c
  end.

Section Matcher.
Variable flags : Z.
Variable text : string.

Definition ignorecase : bool := has_flag flags SRE_FLAG_IGNORECASE.

Definition literal_test (l c : ascii) : bool :=
  if ignorecase then lower l =? lower c else Ascii.eqb l c.

Definition any_test (c : ascii) : bool :=
  has_flag flags SRE_FLAG_DOTALL || negb (is_linebreak c).

Definition in_test (negate : bool) (set : list set_item) (c : ascii) : bool :=
  xorb negate (existsb (fun item => set_item_test ignorecase item c) set).

Definition word_at (pos : nat) : bool :=
  match String.get pos text with
  | Some c => is_word c
  | None => false
  end.

Definition linebreak_at (pos : nat) : bool :=
  match String.get pos text with
  | Some c => is_linebreak c
  | None => false
  end.

(** The assertions, at position [pos] of [text]. *)
Definition at_test (a : at_code) (pos : nat) : bool :=
  let tlen := String.length text in
  match a with
  | AT_BEGINNING =>
      if has_flag flags SRE_FLAG_MULTILINE
      then (pos =? 0) || linebreak_at (pos - 1)
      else pos =? 0
  | AT_BEGINNING_STRING => pos =? 0
  | AT_END =>
      if has_flag flags SRE_FLAG_MULTILINE
      then (pos =? tlen) || linebreak_at pos
      else ((pos + 1 =? tlen) && linebreak_at pos) || (pos =? tlen)
  | AT_END_STRING => pos =? tlen
  | AT_BOUNDARY =>
      if tlen =? 0 then false
      else
        let that := if 0 <? pos then word_at (pos - 1) else false in
        let this := if pos <? tlen then word_at pos else false in
        negb (Bool.eqb this that)
  | AT_NON_BOUNDARY =>
      if tlen =? 0 then false
      else
        let that := if 0 <? pos then word_at (pos - 1) else false in
        let this := if pos <? tlen then word_at pos else false in
        Bool.eqb this that
  end.

(** One character against a test. *)
Definition one (test : ascii -> bool) (pos : nat) (m : marks) (k : cont)
  : option (nat * marks) :=
  match String.get pos text with
  | Some c => if test c then k (S pos) m else None
  | None => None
  end.

Definition same_ptr (pos : nat) (last_ptr : option nat) : bool :=
  match last_ptr with
  | Some p => pos =? p
  | None => false
  end.

(** [MAX_UNTIL]: the greedy repeat, entered with [count] items matched.
    Below [min] the item must match; from there on another item is tried
    first — unless [max] is reached, or the position is where the
    previous item began (it matched the empty string) — and then the
    tail. *)
Fixpoint max_until (item : nat -> marks -> cont -> option (nat * marks))
    (min max : N) (fuel : nat) (count : N) (last_ptr : option nat)
    (pos : nat) (m : marks) (k : cont) : option (nat * marks) :=
  match fuel with
  | 0 => None
  | S fuel' =>
      if (count <? min)%N then
        item pos m (fun pos' m' =>
          max_until item min max fuel' (count + 1)%N last_ptr pos' m' k)
      else
        let more :=
          if ((count <? max)%N || (max =? MAXREPEAT)%N)
             && negb (same_ptr pos last_ptr)
          then item pos m (fun pos' m' =>
                 max_until item min max fuel' (count + 1)%N (Some pos) pos' m' k)
          else None in
        match more with
        | Some r => Some r
        | None => k pos m
        end
  end.

(** [MIN_UNTIL]: the lazy repeat; from [min] items on the tail is tried
    first. *)
Fixpoint min_until (item : nat -> marks -> cont -> option (nat * marks))
    (min max : N) (fuel : nat) (count : N) (last_ptr : option nat)
    (pos : nat) (m : marks) (k : cont) : option (nat * marks) :=
  match fuel with
  | 0 => None
  | S fuel' =>
      if (count <? min)%N then
        item pos m (fun pos' m' =>
          min_until item min max fuel' (count + 1)%N last_ptr pos' m' k)
      else
        match k pos m with
        | Some r => Some r
        | None =>
            if ((max <=? count)%N && negb (max =? MAXREPEAT)%N)
               || same_ptr pos last_ptr
            then None
            else item pos m (fun pos' m' =>
                   min_until item min max fuel' (count + 1)%N (Some pos) pos' m' k)
        end
  end.

(** An item that matches the empty string ends a repeat after [min]
    items, every other item moves forward: a repeat runs through at most
    [min] and the length of the text and one more item. *)
Definition repeat_fuel (min : N) : nat := N.to_nat min + String.length text + 2.

(** The backtracking matcher: [exec r pos m k] matches [r] from [pos]
    on and hands the position reached to [k]; when [k] fails the next
    way of matching [r] is tried. *)
Fixpoint exec (r : regex) (pos : nat) (m : marks) (k : cont) {struct r}
  : option (nat * marks) :=
  match r with
  | Empty => k pos m
  | LITERAL l => one (literal_test l) pos m k
  | ANY => one any_test pos m k
  | IN negate set => one (in_test negate set) pos m k
  | AT a => if at_test a pos then k pos m else None
  | Cat r1 r2 => exec r1 pos m (fun pos' m' => exec r2 pos' m' k)
  | BRANCH r1 r2 =>
      match exec r1 pos m k with
      | Some res => Some res
      | None => exec r2 pos m k
      end
  | SUBPATTERN None p => exec p pos m k
  | SUBPATTERN (Some group) p =>
      exec p pos m (fun pos' m' => k pos' (set_mark group (pos, pos') m'))
  | MAX_REPEAT min max item =>
      max_until (exec item) min max (repeat_fuel min) 0%N None pos m k
  | MIN_REPEAT min max item =>
      min_until (exec item) min max (repeat_fuel min) 0%N None pos m k
  end.

End Matcher.

(** One attempt at position [start]: the end of the match and its
    marks.  With [must_advance] an empty match is not accepted. *)
Definition sre_match (p : SrePattern) (text : string) (start : nat)
    (must_advance : bool) : option (nat * marks) :=
  exec (sp_flags p) text (sp_code p) start (repeat None (sp_groups p))
    (fun pos m => if must_advance && (pos =? start) then None else Some (pos, m)).

(** The attempts at the [n] positions from [start] on. *)
Fixpoint search_loop (p : SrePattern) (text : string) (n : nat) (start : nat)
  : option (nat * nat * marks) :=
  match n with
  | 0 => None
  | S n' =>
      match sre_match p text start false with
      | Some (e, m) => Some (start, e, m)
      | None => search_loop p text n' (S start)
      end
  end.

(** [sre_search]: the first position from [pos] on at which the pattern
    matches; [must_advance] bears on the attempt at [pos] only. *)
Definition sre_search (p : SrePattern) (text : string) (pos : nat)
    (must_advance : bool) : option (nat * nat * marks) :=
  match sre_match p text pos must_advance with
  | Some (e, m) => Some (pos, e, m)
  | None => search_loop p text (String.length text - pos) (S pos)
  end.

(** A match object: [string], [re], the span of the whole match and the
    marks of the groups. *)
Record SreMatch : Type := mkSreMatch {
  m_string : string;
  m_re : SrePattern;
  m_start : nat;
  m_end : nat;
  m_marks : marks
}.

Definition span_text (text : string) (span : option (nat * nat)) : option string :=
  match span with
  | Some (s, e) => Some (slice text s e)
  | None => None
  end.

(** [m.group()], [m.group(i)], [m.groups()], [m.span()] and
    [m.groupdict()]. *)
Definition group0 (m : SreMatch) : string := slice (m_string m) (m_start m) (m_end m).
Definition group (m : SreMatch) (i : nat) : option string :=
  match i with
  | 0 => Some (group0 m)
  | S j => span_text (m_string m) (mjoin (m_marks m !! j))
  end.
Definition groups_of (m : SreMatch) : list (option string) :=
  map (span_text (m_string m)) (m_marks m).
Definition span_of (m : SreMatch) : Z * Z :=
  (Z.of_nat (m_start m), Z.of_nat (m_end m)).
Definition groupdict_of (m : SreMatch) : list (string * option string) :=
  map (fun '(name, gid) => (name, group m gid)) (sp_groupindex (m_re m)).

(** [p.match(text)] and [p.search(text)] *)
Definition pattern_match (p : SrePattern) (text : string) : option SreMatch :=
  match sre_match p text 0 false with
  | Some (e, m) => Some (mkSreMatch text p 0 e m)
  | None => None
  end.

Definition pattern_search (p : SrePattern) (text : string) : option SreMatch :=
  match sre_search p text 0 false with
  | Some (s, e, m) => Some (mkSreMatch text p s e m)
  | None => None
  end.

(** [p.finditer(text)]: each search starts where the previous match
    ended, and must advance when that match was empty.  Two searches
    move forward by at least one character, which bounds the loop. *)
Fixpoint finditer_loop (p : SrePattern) (text : string) (fuel : nat)
    (pos : nat) (must_advance : bool) : list SreMatch :=
  match fuel with
  | 0 => []
  | S fuel' =>
      match sre_search p text pos must_advance with
      | None => []
      | Some (s, e, m) =>
          mkSreMatch text p s e m :: finditer_loop p text fuel' e (e =? s)
      end
  end.

Definition pattern_finditer (p : SrePattern) (text : string) : list SreMatch :=
  finditer_loop p text (2 * String.length text + 3) 0 false.

(** *** Replacement templates and [sub] *)

Inductive template_item : Type :=
| T_LITERAL (s : string)
| T_GROUP (index : nat).

(** [int(s)] for a string: white space at both ends is passed over (the
    space, [\t \n \v \f \r], and the code points 133 and 160), a sign
    may come first, and the digits may have single underscores between
    them; a string of more than 4300 digits is refused. *)
Definition is_int_space (c : ascii) : bool :=
  in_ranges (ord c) [(9, 13); (32, 32); (133, 133); (160, 160)].

Fixpoint drop_int_space (l : list ascii) : list ascii :=
  match l with
  | c :: l' => if is_int_space c then drop_int_space l' else l
  | [] => []
  end.

(** The digits of [l], when it is digits with single underscores
    between them; [after_digit] tells whether the last character read
    was a digit. *)
Fixpoint int_digits (l : list ascii) (after_digit : bool) (acc : list ascii)
  : option (list ascii) :=
  match l with
  | [] => if after_digit then Some acc else None
  | c :: l' =>
      if is_digit c then int_digits l' true (acc ++ [c])%list
      else if Ascii.eqb c "_" && after_digit then int_digits l' false acc
      else None
  end.

Definition py_int (s : string) : option Z :=
  let l := rev (drop_int_space (rev (drop_int_space (list_ascii_of_string s)))) in
  let '(negative, l) :=
    match l with
    | c :: l' =>
        if Ascii.eqb c "-" then (true, l')
        else if Ascii.eqb c "+" then (false, l')
        else (false, l)
    | [] => (false, l)
    end in
  match int_digits l false [] with
  | Some digits =>
      if 4300 <? length digits then None
      else
        let n := Z.of_N (int_of_digits (string_of_list_ascii digits)) in
        Some (if negative then (- n)%Z else n)
  | None => None
  end.

(** [chr(int(digits, 8))] *)
Definition int_of_octal (digits : list ascii) : nat :=
  fold_left (fun acc c => 8 * acc + (ord c - 48)) digits 0.

(** [addgroup] of [parse_template] *)
Definition addgroup (p : SrePattern) (index : N) (pos : nat) : parser template_item :=
  if (N.of_nat (sp_groups p) <? index)%N then
    error ("invalid group reference " ++ str_int (Z.of_N index))%string pos
  else ret (T_GROUP (N.to_nat index)).

(** The loop of [parse_template] over the tokens of the replacement
    string. *)
Fixpoint template_loop (p : SrePattern) (n : nat) (acc : list template_item)
  : parser (list template_item) :=
  match n with
  | 0 => fail (Unmodelled "template")
  | S n' =>
      let* this := sourceget in
      match this with
      | None => ret acc
      | Some (Ch c) => template_loop p n' (acc ++ [T_LITERAL (String c EmptyString)])%list
      | Some (Esc c) =>
          if Ascii.eqb c "g" then
            let* lt := sourcematch "<" in
            if negb lt then error "missing <" 0
            else
              let* k := remaining in
              let* name := getuntil k ">" "group name" EmptyString in
              if isidentifier name then
                match assoc_lookup name (sp_groupindex p) with
                | Some index => template_loop p n' (acc ++ [T_GROUP index])%list
                | None => fail (IndexError ("unknown group name " ++ repr name)%string)
                end
              else
                match py_int name with
                | Some index =>
                    if (index <? 0)%Z then
                      error ("bad character in group name " ++ repr name)%string
                            (String.length name + 1)
                    else if (MAXGROUPS <=? Z.to_N index)%N then
                      error ("invalid group reference " ++ str_int index)%string
                            (String.length name + 1)
                    else
                      let* item :=
                        addgroup p (Z.to_N index) (String.length name + 1) in
                      template_loop p n' (acc ++ [item])%list
                | None =>
                    error ("bad character in group name " ++ repr name)%string
                          (String.length name + 1)
                end
          else if Ascii.eqb c "0" then
            let octal digits :=
              T_LITERAL (String (ascii_of_nat (int_of_octal digits mod 256))
                           EmptyString) in
            let* nx := peek in
            match nx with
            | Some (Ch d) =>
                if is_oct_digit d then
                  let* _ := sourceget in
                  let* nx2 := peek in
                  match nx2 with
                  | Some (Ch d2) =>
                      if is_oct_digit d2 then
                        let* _ := sourceget in
                        template_loop p n' (acc ++ [octal [d; d2]])%list
                      else template_loop p n' (acc ++ [octal [d]])%list
                  | _ => template_loop p n' (acc ++ [octal [d]])%list
                  end
                else template_loop p n' (acc ++ [octal []])%list
            | _ => template_loop p n' (acc ++ [octal []])%list
            end
          else if is_digit c then
            let* nx := peek in
            match nx with
            | Some (Ch d) =>
                if is_digit d then
                  let* _ := sourceget in
                  let* nx2 := peek in
                  let third_octal :=
                    match nx2 with
                    | Some (Ch d3) => is_oct_digit d3
                    | _ => false
                    end in
                  if is_oct_digit c && is_oct_digit d && third_octal then
                    let* d3 := sourceget in
                    let d3 := match d3 with Some (Ch d3) => d3 | _ => d end in
                    let value := int_of_octal [c; d; d3] in
                    if 255 <? value then
                      error ("octal escape value "
                             ++ String backslash
                                  (String c (String d (String d3 EmptyString)))
                             ++ " outside of range 0-0o377")%string 4
                    else
                      template_loop p n'
                        (acc ++ [T_LITERAL (String (ascii_of_nat value)
                                              EmptyString)])%list
                  else
                    let* item :=
                      addgroup p (int_of_digits (String c (String d EmptyString))) 2 in
                    template_loop p n' (acc ++ [item])%list
                else
                  let* item := addgroup p (int_of_digits (String c EmptyString)) 1 in
                  template_loop p n' (acc ++ [item])%list
            | _ =>
                let* item := addgroup p (int_of_digits (String c EmptyString)) 1 in
                template_loop p n' (acc ++ [item])%list
            end
          else
            match ESCAPES c with
            | Some l => template_loop p n' (acc ++ [T_LITERAL (String l EmptyString)])%list
            | None =>
                if is_ascii_letter c then bad_escape c
                else template_loop p n' (acc ++ [T_LITERAL (tok_str (Esc c))])%list
            end
      end
  end.

(** [parse_template(source, pattern)] *)
Definition parse_template (repl : string) (p : SrePattern)
  : result re_exn (list template_item) :=
  match tokenizer_init repl with
  | Raise e => Raise e
  | Return src =>
      match template_loop p (String.length repl + 2) [] (mkPState src 1 []) with
      | Return (t, _) => Return t
      | Raise e => Raise e
      end
  end.

(** [expand_template]: a group that took no part gives the empty string. *)
Definition expand_template (template : list template_item) (m : SreMatch) : string :=
  String.concat EmptyString
    (map (fun item =>
            match item with
            | T_LITERAL s => s
            | T_GROUP i => default EmptyString (group m i)
            end) template).

(** The loop of [p.sub]: the text between the matches is kept, each
    match is replaced by the expanded template; [i] is where the
    previous match ended. *)
Fixpoint sub_loop (p : SrePattern) (text : string) (template : list template_item)
    (fuel : nat) (pos : nat) (must_advance : bool) : string :=
  match fuel with
  | 0 => slice text pos (String.length text)
  | S fuel' =>
      match sre_search p text pos must_advance with
      | None => slice text pos (String.length text)
      | Some (s, e, m) =>
          (slice text pos s ++ expand_template template (mkSreMatch text p s e m)
           ++ sub_loop p text template fuel' e (Nat.eqb e s))%string
      end
  end.

(** [p.sub(repl, text)] *)
Definition pattern_sub (p : SrePattern) (repl text : string) : result re_exn string :=
  match parse_template repl p with
  | Raise e => Raise e
  | Return template =>
      Return (sub_loop p text template (2 * String.length text + 3) 0 false)
  end.

(** *** [re.escape] *)

(** [c], or a backslash and [c] when [c] is special. *)
Definition escape_char (special : ascii -> bool) (c : ascii) : string :=
  if special c then String backslash (String c EmptyString)
  else String c EmptyString.

(** The string with each of its special characters escaped. *)
Definition escape_with (special : ascii -> bool) (pattern : string) : string :=
  String.concat EmptyString
    (map (escape_char special) (list_ascii_of_string pattern)).

(** [_special_chars_map]: the characters [re.escape] escapes are
    [()[]{}?*+-|^$\.&~#], the space and the characters [\t \n \r \v \f]. *)
Definition is_escape_special (c : ascii) : bool :=
  contains c "()[]{}?*+-|^$\.&~# " || in_ranges (ord c) [(9, 13)].

(** [re.escape(pattern)] *)
Definition escape (pattern : string) : string :=
  escape_with is_escape_special pattern.

(** The token an escaped character is read as, the characters of an
    escaped list, and a tokenizer that is about to read the list [l]. *)
Definition tok_of (special : ascii -> bool) (c : ascii) : tok :=
  if special c then Esc c else Ch c.

Definition esc_list (special : ascii -> bool) (l : list ascii) : list ascii :=
  flat_map (fun c => list_ascii_of_string (escape_char special c)) l.

Definition tk_ok (special : ascii -> bool) (l : list ascii) (t : Tokenizer) : Prop :=
  next t = tok_of special <$> head l /\ rest t = esc_list special (tail l).

(** *** What the matcher guarantees *)

(** What a continuation is given: a position inside the text, not
    before [pos], and marks for [n] groups. *)
Definition reaches (text : string) (n : nat)
    (pos : nat) (k : cont) (res : nat * marks) (P : Prop) : Prop :=
  forall pos' m',
    pos <= pos' -> pos' <= String.length text -> length m' = n ->
    k pos' m' = Some res -> P.

(** A matcher that hands its continuation only such positions and marks. *)
Definition sound (text : string) (n : nat)
    (f : nat -> marks -> cont -> option (nat * marks)) : Prop :=
  forall pos m k res (P : Prop),
    pos <= String.length text -> length m = n ->
    f pos m k = Some res -> reaches text n pos k res P -> P.

(** The number of capturing groups of a parse tree. *)
Fixpoint capturing (r : regex) : nat :=
  match r with
  | Cat r1 r2 | BRANCH r1 r2 => capturing r1 + capturing r2
  | SUBPATTERN (Some _) p => S (capturing p)
  | SUBPATTERN None p => capturing p
  | MAX_REPEAT _ _ item | MIN_REPEAT _ _ item => capturing item
  | _ => 0
  end.

(** A step of the parser that opens no group. *)
Definition keeps {A} (m : parser A) : Prop :=
  forall st a st', m st = Return (a, st') -> groups st' = groups st.

(** What holds of a match object of pattern [p] on [text]. *)
Definition match_ok (p : SrePattern) (text : string) (m : SreMatch) : Prop :=
  m_string m = text /\ m_re m = p /\
  m_start m <= m_end m <= String.length text /\
  length (m_marks m) = sp_groups p.

End Sre.

(** [Sre] as an implementation of the interface. *)
#[export] Instance sre : ReModule := {|
  Pattern := Sre.SrePattern;
  Match := Sre.SreMatch;
  re_compile := Sre.compile;
  pattern_match := Sre.pattern_match;
  pattern_search := Sre.pattern_search;
  pattern_finditer := Sre.pattern_finditer;
  pattern_sub := Sre.pattern_sub;
  pattern_groups := Sre.sp_groups;
  match_group := Sre.group0;
  match_group_n := Sre.group;
  match_groups := Sre.groups_of;
  match_span := Sre.span_of;
  match_groupdict := Sre.groupdict_of
|}.

(** ** utils.py *)

Module Utils.
Section WithRe.
Context `{RE : ReModule}.

Definition special_chars : string := ".^$*+?{}[]\|()".

(** [RegexUtils.escape_special_chars]; the [lru_cache] around it keeps
    results, and changes none. *)
Definition escape_special_chars (pattern : string) : string :=
  String.concat EmptyString
    (map (fun char =>
            if contains char special_chars
            then String Sre.backslash (String char EmptyString)
            else String char EmptyString)
       (list_ascii_of_string pattern)).

(** [RegexUtils.is_valid_pattern] *)
Definition is_valid_pattern (pattern : string) : result re_exn bool :=
  match re_compile pattern 0 with
  | Return _ => Return true
  | Raise (ReError _) => Return false
  | Raise e => Raise e
  end.

End WithRe.
(** The scan of [extract_pattern_components] for the end of a character
    class: [while j < len(pattern) and pattern[j] != ']': j += 1], run
    for at most [n] steps. *)
Fixpoint scan_class (pattern : string) (n j : nat) : nat :=
  match n with
  | 0%nat => j
  | S n' =>
      match String.get j pattern with
      | Some c => if Ascii.eqb c "]" then j else scan_class pattern n' (S j)
      | None => j
      end
  end.

(** Its scan for the end of a group:
    [while j < len(pattern) and depth > 0], run for at most [n] steps. *)
Fixpoint scan_group (pattern : string) (n j depth : nat) : nat :=
  match n with
  | 0%nat => j
  | S n' =>
      match String.get j pattern with
      | Some c =>
          if (depth =? 0)%nat then j
          else
            let depth :=
              if Ascii.eqb c "(" then S depth
              else if Ascii.eqb c ")" then (depth - 1)%nat
              else depth in
            scan_group pattern n' (S j) depth
      | None => j
      end
  end.

(** The body of its main loop up to [if current:], entered with
    [current] empty: the new [i], [current] and [category].  A backslash
    that ends the pattern changes nothing. *)
Definition extract_step (pattern : string) (i : nat) (category : string)
  : nat * string * string :=
  let n := String.length pattern in
  match String.get i pattern with
  | None => (i, EmptyString, category)
  | Some c =>
      if Ascii.eqb c Sre.backslash then
        if (i + 1 <? n)%nat
        then ((i + 2)%nat, slice pattern i (i + 2), "escape_sequence")
        else (i, EmptyString, category)
      else if contains c "[]" then
        let j := scan_class pattern n (i + 1) in
        ((j + 1)%nat, slice pattern i (j + 1), "character_class")
      else if contains c "()" then
        let j := scan_group pattern n (i + 1) 1 in
        (j, slice pattern i j, "group")
      else
        ((i + 1)%nat, String c EmptyString,
         if contains c ".^$*+?{}|" then "metacharacter" else "literal")
  end.

(** The main loop, run for at most [fuel] iterations; [None] when it is
    still running after them. *)
Fixpoint extract_loop (fuel : nat) (pattern : string) (i : nat)
    (category : string) (components : list (string * string))
  : option (list (string * string)) :=
  match fuel with
  | 0%nat => None
  | S fuel' =>
      if (i <? String.length pattern)%nat then
        let '(i', current, category') := extract_step pattern i category in
        extract_loop fuel' pattern i' category'
          (if String.eqb current EmptyString then components
           else components ++ [(current, category')])%list
      else Some components
  end.

(** [RegexUtils.extract_pattern_components], run for at most [fuel]
    iterations of its loop. *)
Definition extract_pattern_components (fuel : nat) (pattern : string)
  : option (list (string * string)) :=
  extract_loop fuel pattern 0 EmptyString [].

(** [s.replace(old, new)]: the occurrences of [old] in [s], taken from
    the left and not overlapping, become [new]; [skip] counts the
    characters of an occurrence still to pass.  An empty [old] occurs
    before every character and at the end. *)
Fixpoint replace_from (old new : string) (skip : nat) (s : string) : string :=
  match s with
  | EmptyString => EmptyString
  | String c s' =>
      match skip with
      | S k => replace_from old new k s'
      | O =>
          if String.prefix old s
          then new ++ replace_from old new (String.length old - 1) s'
          else String c (replace_from old new 0 s')
      end
  end.

Definition str_replace (old new s : string) : string :=
  if String.eqb old EmptyString then
    new ++ String.concat EmptyString
             (map (fun c => String c new) (list_ascii_of_string s))
  else replace_from old new 0 s.

Record RegexSyntaxTransformation : Type := mkRegexSyntaxTransformation {
  original : string;
  transformed : string;
  description : string
}.

(** [RegexUtils.SYNTAX_TRANSFORMS] *)
Definition SYNTAX_TRANSFORMS : list (string * list RegexSyntaxTransformation) :=
  [("python_to_js",
    [mkRegexSyntaxTransformation "(?P<name>...)" "(?<name>...)" "Named capture group";
     mkRegexSyntaxTransformation "\A" "^" "Start of string";
     mkRegexSyntaxTransformation "\Z" "$" "End of string"]);
   ("js_to_python",
    [mkRegexSyntaxTransformation "(?<name>...)" "(?P<name>...)" "Named capture group";
     mkRegexSyntaxTransformation "^" "\A" "Start of string";
     mkRegexSyntaxTransformation "$" "\Z" "End of string"])].

(** [RegexUtils.transform_syntax] *)
Definition transform_syntax (pattern from_flavor to_flavor : string) : string :=
  let transform_key := from_flavor ++ "_to_" ++ to_flavor in
  match Sre.assoc_lookup transform_key SYNTAX_TRANSFORMS with
  | Some transforms =>
      fold_left (fun result transform =>
                   str_replace (original transform) (transformed transform) result)
        transforms pattern
  | None => pattern
  end.

(** The category names [extract_pattern_components] gives. *)
Definition categories : list string :=
  ["escape_sequence"; "character_class"; "group"; "literal"; "metacharacter"].

(** Characters its loop takes one at a time: all but the backslash,
    the brackets and the parentheses. *)
Definition plain (c : ascii) : bool := negb (contains c "\[]()").

End Utils.

(** ** pattern_generator.py *)

Module PatternGenerator.

Inductive Quantifier : Type := ZERO_OR_MORE | ONE_OR_MORE | ZERO_OR_ONE.

(** [Quantifier.value] *)
Definition quantifier_value (q : Quantifier) : string :=
  match q with
  | ZERO_OR_MORE => "*"
  | ONE_OR_MORE => "+"
  | ZERO_OR_ONE => "?"
  end.

Record PatternComponent : Type := mkPatternComponent {
  value : string;
  quantifier : option Quantifier
}.

(** [PatternComponent.__str__] *)
Definition component_str (c : PatternComponent) : string :=
  match quantifier c with
  | Some q => value c ++ quantifier_value q
  | None => value c
  end.

(** A [PatternBuilder]: its list [components]. *)
Definition PatternBuilder : Type := list PatternComponent.

(** [PatternBuilder.__str__] *)
Definition builder_str (self : PatternBuilder) : string :=
  String.concat EmptyString (map component_str self).

(** An argument of [add] and [group]: a [str] or a [PatternComponent]. *)
Inductive component_arg : Type :=
| Text (s : string)
| Component (c : PatternComponent).

(** An argument of [or_]: a [str] or a [PatternBuilder]. *)
Inductive pattern_arg : Type :=
| PText (s : string)
| PBuilder (b : PatternBuilder).

(** [PatternBuilder.add]: a string is escaped. *)
Definition add (component : component_arg) (self : PatternBuilder) : PatternBuilder :=
  (self ++ [match component with
            | Text s => mkPatternComponent (Sre.escape s) None
            | Component c => c
            end])%list.

Definition digit (quantifier : option Quantifier) (self : PatternBuilder)
  : PatternBuilder := (self ++ [mkPatternComponent "\d" quantifier])%list.
Definition word (quantifier : option Quantifier) (self : PatternBuilder)
  : PatternBuilder := (self ++ [mkPatternComponent "\w" quantifier])%list.
Definition whitespace (quantifier : option Quantifier) (self : PatternBuilder)
  : PatternBuilder := (self ++ [mkPatternComponent "\s" quantifier])%list.
Definition any (quantifier : option Quantifier) (self : PatternBuilder)
  : PatternBuilder := (self ++ [mkPatternComponent "." quantifier])%list.

(** [PatternBuilder.group] *)
Definition group (components : list component_arg) (self : PatternBuilder)
  : PatternBuilder :=
  let group_builder := fold_left (fun b c => add c b) components [] in
  (self ++ [mkPatternComponent ("(" ++ builder_str group_builder ++ ")") None])%list.

(** [PatternBuilder.or_] *)
Definition or_ (patterns : list pattern_arg) (self : PatternBuilder)
  : PatternBuilder :=
  let pattern_strings :=
    map (fun pattern =>
           match pattern with
           | PText s => Sre.escape s
           | PBuilder b => builder_str b
           end) patterns in
  (self ++ [mkPatternComponent ("(" ++ String.concat "|" pattern_strings ++ ")")
              None])%list.

(** What the builder and the generator raise: [ValueError], and
    whatever [re.compile] raises. *)
Inductive exn : Type :=
| ValueError (msg : string)
| Uncaught (e : re_exn).

(** [PatternBuilder.repeat]; [ValueError] on a builder with no
    component.  The quantifier of the component it wraps is not kept. *)
Definition repeat (min_times : Z) (max_times : option Z) (self : PatternBuilder)
  : result exn PatternBuilder :=
  match Sre.split_last self with
  | None => Raise (ValueError "Cannot add repetition to empty pattern")
  | Some (before, last_component) =>
      let bounds :=
        match max_times with
        | None => str_int min_times ++ ","
        | Some m => str_int min_times ++ "," ++ str_int m
        end in
      Return (before ++ [mkPatternComponent
                           ("(" ++ value last_component ++ "){" ++ bounds ++ "}")
                           None])%list
  end.

(** A call that may raise, followed by the rest of the chain. *)
Definition and_then {A B} (r : result exn A) (k : A -> result exn B)
  : result exn B :=
  match r with
  | Return a => k a
  | Raise e => Raise e
  end.

Section WithRe.
Context `{RE : ReModule}.

(** [PatternBuilder.compile] *)
Definition compile (self : PatternBuilder) : result exn Pattern :=
  match re_compile (builder_str self) 0 with
  | Return p => Return p
  | Raise e => Raise (Uncaught e)
  end.

(** [PatternGenerator.phone_number] *)
Definition phone_number (country : string) : result exn Pattern :=
  if String.eqb country "US" then
    and_then (repeat 3 None (digit None (add (Text "(") []))) (fun b =>
    and_then (repeat 3 None (digit None (whitespace None (add (Text ")") b))))
      (fun b =>
    and_then (repeat 4 None (digit None (add (Text "-") b))) compile))
  else
    Raise (ValueError ("Pattern for country " ++ country ++ " not implemented")).

(** The builders [local_part] and [domain] of [email], [protocol] and
    [path] of [url]. *)
Definition local_part : PatternBuilder :=
  word (Some ZERO_OR_MORE) (or_ [PText "."; PText "-"; PText "_"] (word None [])).

Definition domain : result exn PatternBuilder :=
  repeat 2 (Some 63%Z) (word None (add (Text ".") (word None []))).

Definition protocol : PatternBuilder :=
  word (Some ZERO_OR_MORE)
    (or_ [PText "http://"; PText "https://"; PText "ftp://"] []).

Definition path : PatternBuilder :=
  word (Some ZERO_OR_MORE)
    (or_ [PText "/"; PText "-"; PText "_"; PText "."]
       (word None (add (Text "/") []))).

(** [PatternGenerator.email]: the three parts are added as strings. *)
Definition email : result exn Pattern :=
  and_then domain (fun domain =>
    compile (add (Text (builder_str domain))
               (add (Text "@") (add (Text (builder_str local_part)) [])))).

(** [PatternGenerator.url] *)
Definition url : result exn Pattern :=
  and_then domain (fun domain =>
    compile (add (Text (builder_str path))
               (add (Text (builder_str domain))
                  (add (Text (builder_str protocol)) [])))).

End WithRe.
End PatternGenerator.

(** ** [regex_documentor.py]: the quantifiers of [RegexDocumenter] *)

Module RegexDocumenter.

(** [sre_constants.MAXREPEAT], as an [int]. *)
Definition MAXREPEAT : Z := 4294967295.

(** [RegexDocumenter.QUANTIFIER_DESC] *)
Definition QUANTIFIER_DESC : list (string * string) :=
  [("*", "zero or more times");
   ("+", "one or more times");
   ("?", "optionally");
   ("{m,n}", "between {m} and {n} times");
   ("{m}", "exactly {m} times");
   ("{m,}", "at least {m} times")].

(** [RegexDocumenter._get_quantifier_str], on the counts of a repeat as
    [sre_parse] gives them: [min_count] an [int], [max_count] an [int]
    or [MAXREPEAT]. *)
Definition _get_quantifier_str (min_count max_count : Z) : string :=
  if Z.eqb min_count 0 && Z.eqb max_count MAXREPEAT then "*"
  else if Z.eqb min_count 1 && Z.eqb max_count MAXREPEAT then "+"
  else if Z.eqb min_count 0 && Z.eqb max_count 1 then "?"
  else if Z.eqb min_count max_count then "{" ++ str_int min_count ++ "}"
  else if Z.eqb max_count MAXREPEAT then "{" ++ str_int min_count ++ ",}"
  else "{" ++ str_int min_count ++ "," ++ str_int max_count ++ "}".

(** [s.split(sep)] for a one-character [sep]: the first piece and the
    pieces after it. *)
Fixpoint split (sep : ascii) (s : string) : string * list string :=
  match s with
  | EmptyString => (EmptyString, [])
  | String c s' =>
      let '(piece, pieces) := split sep s' in
      if Ascii.eqb c sep then (EmptyString, piece :: pieces)
      else (String c piece, pieces)
  end.

(** [RegexDocumenter._describe_quantifier], from its second line on:
    the description of the quantifier string. *)
Definition describe_quantifier_str (quantifier : string) : string :=
  let desc :=
    match Sre.assoc_lookup quantifier QUANTIFIER_DESC with
    | Some d => d
    | None => EmptyString
    end in
  if String.eqb desc EmptyString then
    if contains "{" quantifier then
      let nums :=
        split "," (slice quantifier 1 (String.length quantifier - 1)) in
      match nums with
      | (n0, []) => "exactly " ++ n0 ++ " times"
      | (n0, n1 :: _) =>
          if String.eqb n1 EmptyString then "at least " ++ n0 ++ " times"
          else "between " ++ n0 ++ " and " ++ n1 ++ " times"
      end
    else desc
  else desc.

(** [RegexDocumenter._describe_quantifier] *)
Definition _describe_quantifier (min_count max_count : Z) : string :=
  let quantifier := _get_quantifier_str min_count max_count in
  describe_quantifier_str quantifier.



(** The characters [str] of an [int] is made of. *)
Definition digits_and_sign : string := "-0123456789".

End RegexDocumenter.

(** * Properties *)

(** ** The cache key *)

Section CacheKey.

Lemma contains_append c s1 s2 :
  contains c (s1 ++ s2) = contains c s1 || contains c s2.
Proof.
  induction s1 as [|a s1 IH]; simpl; [done|].
  rewrite IH. by rewrite orb_assoc.
Qed.

Lemma append_assoc s1 s2 s3 : (s1 ++ s2) ++ s3 = s1 ++ s2 ++ s3.
Proof.
  induction s1 as [|a s1 IH]; [done|].
  change (String a ((s1 ++ s2) ++ s3) = String a (s1 ++ s2 ++ s3)).
  by rewrite IH.
Qed.

Lemma append_nil_r s : s ++ EmptyString = s.
Proof.
  induction s as [|a s IH]; [done|].
  change (String a (s ++ EmptyString) = String a s). by rewrite IH.
Qed.

Lemma string_of_uint_no_underscore d :
  contains underscore (NilEmpty.string_of_uint d) = false.
Proof. induction d; simpl; auto. Qed.

Lemma str_int_no_underscore n : contains underscore (str_int n) = false.
Proof.
  unfold str_int, NilZero.string_of_int, NilZero.string_of_uint.
  destruct (Z.to_int n) as [d|d]; destruct d; simpl; auto;
    apply string_of_uint_no_underscore.
Qed.

Lemma to_int_not_nil n : Z.to_int n <> Pos Nil /\ Z.to_int n <> Neg Nil.
Proof.
  destruct n as [|p|p]; simpl; split; try discriminate;
    intros [=H]; by apply (Unsigned.to_uint_nonnil p).
Qed.

(** [str] is injective on integers. *)
Lemma str_int_inj n1 n2 : str_int n1 = str_int n2 -> n1 = n2.
Proof.
  unfold str_int. intros H.
  apply DecimalZ.to_int_inj.
  destruct (to_int_not_nil n1) as [Hp1 Hn1], (to_int_not_nil n2) as [Hp2 Hn2].
  pose proof (NilZero.isi _ Hp1 Hn1) as E1.
  pose proof (NilZero.isi _ Hp2 Hn2) as E2.
  rewrite H in E1. congruence.
Qed.

(** Two strings that end in a separator and a tail free of it are
    equal only part by part. *)
Lemma append_sep_inj c p1 p2 t1 t2 :
  contains c t1 = false -> contains c t2 = false ->
  p1 ++ String c t1 = p2 ++ String c t2 -> p1 = p2 /\ t1 = t2.
Proof.
  intros H1 H2. revert p2.
  induction p1 as [|a p1 IH]; intros [|b p2]; simpl; intros E.
  - by inversion E.
  - inversion E; subst. rewrite contains_append in H1. simpl in H1.
    rewrite Ascii.eqb_refl in H1. simpl in H1.
    by rewrite orb_true_r in H1.
  - inversion E; subst. rewrite contains_append in H2. simpl in H2.
    rewrite Ascii.eqb_refl in H2. simpl in H2.
    by rewrite orb_true_r in H2.
  - inversion E; subst. destruct (IH p2) as [-> ->]; auto.
Qed.

Context `{RE : ReModule}.

Lemma cache_key_inj pattern1 flags1 pattern2 flags2 :
  RegexTester.cache_key pattern1 flags1 = RegexTester.cache_key pattern2 flags2 ->
  pattern1 = pattern2 /\ flags1 = flags2.
Proof.
  unfold RegexTester.cache_key. intros E.
  apply (append_sep_inj underscore) in E; auto using str_int_no_underscore.
  destruct E as [-> E]. split; [done|]. by apply str_int_inj.
Qed.

End CacheKey.

(** ** The pattern cache *)

Section Cache.
Context `{RE : ReModule}.
Import RegexTester.

(** *** The cache of [re.compile] *)

Lemma re_cache_get_In pattern flags cache id :
  re_cache_get pattern flags cache = Some id -> In ((pattern, flags), id) cache.
Proof.
  induction cache as [|[[p f] i] cache IH]; [done|]. cbn [re_cache_get].
  destruct (String.eqb_spec p pattern) as [->|?];
    destruct (Z.eqb_spec f flags) as [->|?]; cbn [andb];
    try (intros H; right; by apply IH).
  intros [= ->]. by left.
Qed.

Lemma re_cache_get_app pattern flags (c1 c2 : re_cache) :
  re_cache_get pattern flags (c1 ++ c2)%list
  = match re_cache_get pattern flags c1 with
    | Some id => Some id
    | None => re_cache_get pattern flags c2
    end.
Proof.
  induction c1 as [|[[p f] i] c1 IH]; [done|].
  rewrite <- app_comm_cons. cbn [re_cache_get].
  by destruct (String.eqb p pattern && Z.eqb f flags).
Qed.

Lemma re_cache_get_here pattern flags id :
  re_cache_get pattern flags [((pattern, flags), id)] = Some id.
Proof. cbn [re_cache_get]. by rewrite String.eqb_refl, Z.eqb_refl. Qed.

Lemma re_cache_get_tail pattern flags cache :
  re_cache_get pattern flags cache = None ->
  re_cache_get pattern flags (tail cache) = None.
Proof.
  destruct cache as [|[[p f] i] cache]; [done|]. cbn [re_cache_get tail].
  by destruct (String.eqb p pattern && Z.eqb f flags).
Qed.

Lemma re_cache_run_app cache i (l1 l2 : list (string * Z)) :
  re_cache_run cache i (l1 ++ l2)%list
  = re_cache_run (re_cache_run cache i l1) (i + length l1) l2.
Proof.
  revert cache i. induction l1 as [|[p f] l1 IH]; intros cache i.
  - simpl. by rewrite Nat.add_0_r.
  - rewrite <- app_comm_cons. cbn [re_cache_run length]. rewrite IH.
    by rewrite Nat.add_succ_r.
Qed.

(** One more call of the trace is one more call of [re._compile]. *)
Lemma re_cache_after_snoc calls pattern flags :
  re_cache_after (calls ++ [(pattern, flags)])%list
  = snd (re_compile_call (re_cache_after calls) (length calls) pattern flags).
Proof. unfold re_cache_after. by rewrite re_cache_run_app. Qed.

Lemma In_tail {A} (x : A) (l : list A) : In x (tail l) -> In x l.
Proof. destruct l; [done|]. by right. Qed.

Lemma re_compile_call_In cache i pattern flags k id :
  In (k, id) (snd (re_compile_call cache i pattern flags)) ->
  In (k, id) cache \/ (k = (pattern, flags) /\ id = i).
Proof.
  unfold re_compile_call.
  destruct (re_cache_get pattern flags cache); [by left|].
  destruct (re_compile pattern flags); [|by left].
  destruct (negb (Z.land flags DEBUG =? 0)%Z); [by left|]. cbn [snd].
  intros H. apply in_app_or in H as [H|[[= <- <-]|[]]]; [|by right].
  left. destruct (_MAXCACHE <=? length cache)%nat; [by apply In_tail|done].
Qed.

Lemma re_compile_call_length cache i pattern flags :
  (length (snd (re_compile_call cache i pattern flags)) <= S (length cache))%nat.
Proof.
  unfold re_compile_call.
  destruct (re_cache_get pattern flags cache); [simpl; lia|].
  destruct (re_compile pattern flags); [|simpl; lia].
  destruct (negb (Z.land flags DEBUG =? 0)%Z); [simpl; lia|]. cbn [snd].
  rewrite length_app. cbn [length].
  destruct (_MAXCACHE <=? length cache)%nat; [|lia].
  destruct cache; cbn [tail length]; lia.
Qed.

Lemma re_cache_after_length calls :
  (length (re_cache_after calls) <= length calls)%nat.
Proof.
  induction calls as [|[p f] calls IH] using rev_ind; [done|].
  rewrite re_cache_after_snoc, length_app. simpl.
  pose proof (re_compile_call_length (re_cache_after calls) (length calls) p f).
  lia.
Qed.

(** The identities in [re._cache] are the indices of the calls that
    made the objects. *)
Lemma re_cache_after_In calls k id :
  In (k, id) (re_cache_after calls) -> calls !! id = Some k.
Proof.
  revert k id. induction calls as [|[p f] calls IH] using rev_ind;
    intros k id; [done|].
  rewrite re_cache_after_snoc. intros H.
  apply re_compile_call_In in H as [H|[-> ->]].
  - apply lookup_app_l_Some. by apply IH.
  - by rewrite list_lookup_middle.
Qed.

Lemma re_cache_after_ok calls : re_cache_ok calls (re_cache_after calls).
Proof.
  intros pattern flags id H. by apply re_cache_after_In, re_cache_get_In.
Qed.

(** The object [re.compile] returns was made by a call, this one or an
    earlier one, with the same pattern and flags. *)
Lemma re_object_id_spec calls pattern flags :
  (calls ++ [(pattern, flags)])%list !! re_object_id calls pattern flags
  = Some (pattern, flags).
Proof.
  unfold re_object_id.
  destruct (re_cache_get pattern flags (re_cache_after calls)) as [id|] eqn:E.
  - apply lookup_app_l_Some. by apply re_cache_after_ok.
  - by rewrite list_lookup_middle.
Qed.

(** A call to [re.compile] leaves in [re._cache] what it holds, as long
    as the cache is not full. *)
Lemma re_compile_call_keeps cache i pattern flags p f id :
  (length cache < _MAXCACHE)%nat ->
  re_cache_get p f cache = Some id ->
  re_cache_get p f (snd (re_compile_call cache i pattern flags)) = Some id.
Proof.
  intros Hlen Hget. unfold re_compile_call.
  destruct (re_cache_get pattern flags cache); [done|].
  destruct (re_compile pattern flags); [|done].
  destruct (negb (Z.land flags DEBUG =? 0)%Z); [done|]. cbn [snd].
  destruct (Nat.leb_spec _MAXCACHE (length cache)); [lia|].
  by rewrite re_cache_get_app, Hget.
Qed.

(** After a call that compiles a pattern without the flag [DEBUG],
    [re._cache] holds the object the call returned. *)
Lemma re_cache_after_holds calls pattern flags cp :
  re_compile pattern flags = Return cp ->
  Z.land flags DEBUG = 0 ->
  re_cache_get pattern flags (re_cache_after (calls ++ [(pattern, flags)])%list)
  = Some (re_object_id calls pattern flags).
Proof.
  intros Hc Hd. rewrite re_cache_after_snoc. unfold re_object_id, re_compile_call.
  destruct (re_cache_get pattern flags (re_cache_after calls)) as [id|] eqn:E;
    [done|].
  rewrite Hc, Hd. cbn [Z.eqb negb snd].
  rewrite re_cache_get_app.
  destruct (_MAXCACHE <=? length (re_cache_after calls))%nat.
  - by rewrite (re_cache_get_tail _ _ _ E), re_cache_get_here.
  - by rewrite E, re_cache_get_here.
Qed.

(** *** The cache of the compiler *)

Lemma compile_pattern_cache_ok s pattern flags :
  cache_ok s -> cache_ok (snd (compile_pattern pattern flags s)).
Proof.
  intros Hs. unfold compile_pattern.
  destruct (_cache s !! cache_key pattern flags) as [o|] eqn:Hk; [done|].
  assert (Hold : forall k o calls,
             _cache s !! k = Some o ->
             exists p f, k = cache_key p f /\
               (re_calls s ++ calls)%list !! obj_id o = Some (p, f) /\
               re_compile p f = Return (obj_pattern o)).
  { intros k o calls Hl. destruct (Hs k o Hl) as (p & f & -> & Hc & Hr).
    exists p, f. split_and!; [done| |done]. by apply lookup_app_l_Some. }
  destruct (re_compile pattern flags) as [p|e] eqn:Hc; simpl.
  - intros k o. simpl. destruct (decide (k = cache_key pattern flags)) as [->|Hne].
    + rewrite lookup_insert_eq. intros [= <-]. exists pattern, flags. simpl.
      split_and!; [done| |done]. apply re_object_id_spec.
    + rewrite lookup_insert_ne; [|done]. apply Hold.
  - destruct e; intros k o; simpl; apply Hold.
Qed.

Lemma other_call_cache_ok s pattern flags :
  cache_ok s ->
  cache_ok (mkState (_cache s) (re_calls s ++ [(pattern, flags)])%list).
Proof.
  intros Hs k o Hl. destruct (Hs k o Hl) as (p & f & -> & Hc & Hr).
  exists p, f. split_and!; [done| |done]. by apply lookup_app_l_Some.
Qed.

(** The invariant holds in every state the compiler reaches. *)
Lemma reachable_cache_ok s : reachable s -> cache_ok s.
Proof.
  induction 1 as [|s pattern flags _ IH|s _ IH|s pattern flags _ IH].
  - intros k o. simpl. by rewrite lookup_empty.
  - by apply compile_pattern_cache_ok.
  - intros k o. simpl. by rewrite lookup_empty.
  - by apply other_call_cache_ok.
Qed.

(** A key in the cache belongs to a pattern that compiles, and holds the
    result of compiling it. *)
Lemma cached_is_compiled s pattern flags o :
  cache_ok s -> _cache s !! cache_key pattern flags = Some o ->
  re_calls s !! obj_id o = Some (pattern, flags) /\
  re_compile pattern flags = Return (obj_pattern o).
Proof.
  intros Hs Hl. destruct (Hs _ _ Hl) as (p & f & Hk & Hc & Hr).
  apply cache_key_inj in Hk as [-> ->]. done.
Qed.

(** What [compile_pattern] does with a pattern that compiles. *)
Lemma compile_pattern_valid s pattern flags cp :
  cache_ok s -> re_compile pattern flags = Return cp ->
  exists o s1,
    compile_pattern pattern flags s = (Return o, s1) /\
    obj_pattern o = cp /\
    _cache s1 !! cache_key pattern flags = Some o /\
    (forall k, k <> cache_key pattern flags -> _cache s1 !! k = _cache s !! k).
Proof.
  intros Hs Hc. unfold compile_pattern.
  destruct (_cache s !! cache_key pattern flags) as [o|] eqn:Hk.
  - exists o, s. destruct (cached_is_compiled _ _ _ _ Hs Hk) as [_ Hr].
    split_and!; [done|congruence|done|done].
  - rewrite Hc. eexists _, _. split_and!; [done|done| |]; simpl.
    + by rewrite lookup_insert_eq.
    + intros k Hne. by rewrite lookup_insert_ne.
Qed.

(** *** The two caches together *)

Lemma other_call_cache_linked s pattern flags :
  cache_linked s ->
  cache_linked (mkState (_cache s) (re_calls s ++ [(pattern, flags)])%list).
Proof.
  intros Hs Hlen p f o Hl Hd. cbn [_cache re_calls] in *.
  rewrite length_app in Hlen. cbn [length] in Hlen.
  rewrite re_cache_after_snoc. apply re_compile_call_keeps.
  - pose proof (re_cache_after_length (re_calls s)). lia.
  - apply Hs; [lia|done|done].
Qed.

Lemma compile_pattern_cache_linked s pattern flags :
  cache_linked s -> cache_linked (snd (compile_pattern pattern flags s)).
Proof.
  intros Hs. unfold compile_pattern.
  destruct (_cache s !! cache_key pattern flags) as [o|] eqn:Hk; [done|].
  destruct (re_compile pattern flags) as [cp|e] eqn:Hc.
  - intros Hlen p f o Hl Hd. cbn [snd _cache re_calls] in *.
    destruct (decide (cache_key p f = cache_key pattern flags)) as [E|Hne].
    + rewrite E, lookup_insert_eq in Hl. injection Hl as <-.
      apply cache_key_inj in E as [-> ->]. cbn [obj_id].
      by apply (re_cache_after_holds _ _ _ cp).
    + rewrite lookup_insert_ne in Hl; [|done].
      rewrite length_app in Hlen. cbn [length] in Hlen.
      rewrite re_cache_after_snoc. apply re_compile_call_keeps.
      * pose proof (re_cache_after_length (re_calls s)). lia.
      * apply Hs; [lia|done|done].
  - destruct e; by apply other_call_cache_linked.
Qed.

Lemma reachable_cache_linked s : reachable s -> cache_linked s.
Proof.
  induction 1 as [|s pattern flags _ IH|s _ IH|s pattern flags _ IH].
  - intros _ p f o. simpl. by rewrite lookup_empty.
  - by apply compile_pattern_cache_linked.
  - intros _ p f o. simpl. by rewrite lookup_empty.
  - by apply other_call_cache_linked.
Qed.

End Cache.

(** C2: when [re.compile] rejects a pattern as syntactically invalid,
    [compile_pattern] raises [RegexError] to its caller and leaves the
    cache as it was: the key has no entry afterwards, and a later call
    with the same pattern and flags calls [re.compile] again and raises
    the same error. *)
Theorem compile_pattern_invalid `{RE : ReModule}
    (s : RegexTester.State) (pattern : string) (flags : Z) (e : re_error) :
  RegexTester.reachable s ->
  re_compile pattern flags = Raise (ReError e) ->
  let err := RegexTester.RegexError ("Invalid regex pattern: " ++ re_error_str e) in
  let s1 := RegexTester.mkState (RegexTester._cache s)
              (RegexTester.re_calls s ++ [(pattern, flags)])%list in
  let s2 := RegexTester.mkState (RegexTester._cache s)
              (RegexTester.re_calls s1 ++ [(pattern, flags)])%list in
  RegexTester.compile_pattern pattern flags s = (Raise err, s1) /\
  RegexTester._cache s1 !! RegexTester.cache_key pattern flags = None /\
  RegexTester.compile_pattern pattern flags s1 = (Raise err, s2).
Proof.
  intros Hs He. apply reachable_cache_ok in Hs.
  assert (Hk : RegexTester._cache s !! RegexTester.cache_key pattern flags = None).
  { destruct (RegexTester._cache s !! RegexTester.cache_key pattern flags)
      as [o|] eqn:Hk; [|done].
    destruct (cached_is_compiled _ _ _ _ Hs Hk) as [_ Hr]. congruence. }
  simpl. unfold RegexTester.compile_pattern. simpl. by rewrite Hk, He.
Qed.

(** C3: for a pattern that compiles, the second call of
    [compile_pattern] with the same pattern and flags returns the very
    object the first call returned and changes nothing, and [match],
    [find_all] and [replace] give after it what they gave on the first
    call. *)
Theorem compile_pattern_idempotent `{RE : ReModule}
    (s : RegexTester.State) (pattern : string) (flags : Z) (cp : Pattern) :
  RegexTester.reachable s ->
  re_compile pattern flags = Return cp ->
  exists o s1,
    RegexTester.compile_pattern pattern flags s = (Return o, s1) /\
    RegexTester.obj_pattern o = cp /\
    RegexTester.compile_pattern pattern flags s1 = (Return o, s1) /\
    (forall text,
       RegexTester.match_ pattern text flags s1
       = (fst (RegexTester.match_ pattern text flags s), s1)) /\
    (forall text,
       RegexTester.find_all pattern text flags s1
       = (fst (RegexTester.find_all pattern text flags s), s1)) /\
    (forall text replacement,
       RegexTester.replace pattern text replacement flags s1
       = (fst (RegexTester.replace pattern text replacement flags s), s1)).
Proof.
  intros Hs Hc. apply reachable_cache_ok in Hs.
  destruct (compile_pattern_valid s pattern flags cp Hs Hc)
    as (o & s1 & H1 & Ho & Hk & _).
  assert (H2 : RegexTester.compile_pattern pattern flags s1 = (Return o, s1)).
  { unfold RegexTester.compile_pattern. by rewrite Hk. }
  exists o, s1. split_and!; [done|done|done| | |].
  - intros text. unfold RegexTester.match_. rewrite H1, H2.
    by destruct (pattern_match _ _).
  - intros text. unfold RegexTester.find_all. by rewrite H1, H2.
  - intros text replacement. unfold RegexTester.replace. rewrite H1, H2.
    by destruct (pattern_sub _ _ _).
Qed.

(** C4: the key [pattern + "_" + str(flags)] tells two different pairs
    of a pattern and integer flags apart, so compiling one pair and then
    another leaves each under its own entry, holding its own compiled
    object. *)
Theorem distinct_keys_distinct_entries `{RE : ReModule}
    (s : RegexTester.State) (pattern1 pattern2 : string) (flags1 flags2 : Z)
    (cp1 cp2 : Pattern) :
  RegexTester.reachable s ->
  (pattern1, flags1) <> (pattern2, flags2) ->
  re_compile pattern1 flags1 = Return cp1 ->
  re_compile pattern2 flags2 = Return cp2 ->
  RegexTester.cache_key pattern1 flags1 <> RegexTester.cache_key pattern2 flags2 /\
  exists o1 s1 o2 s2,
    RegexTester.compile_pattern pattern1 flags1 s = (Return o1, s1) /\
    RegexTester.compile_pattern pattern2 flags2 s1 = (Return o2, s2) /\
    RegexTester._cache s2 !! RegexTester.cache_key pattern1 flags1 = Some o1 /\
    RegexTester._cache s2 !! RegexTester.cache_key pattern2 flags2 = Some o2 /\
    RegexTester.obj_pattern o1 = cp1 /\
    RegexTester.obj_pattern o2 = cp2 /\
    RegexTester.obj_id o1 <> RegexTester.obj_id o2.
Proof.
  intros Hs Hne Hc1 Hc2.
  assert (Hkey : RegexTester.cache_key pattern1 flags1
                 <> RegexTester.cache_key pattern2 flags2).
  { intros E. apply cache_key_inj in E as [-> ->]. done. }
  split; [done|].
  apply reachable_cache_ok in Hs.
  destruct (compile_pattern_valid s pattern1 flags1 cp1 Hs Hc1)
    as (o1 & s1 & H1 & Ho1 & Hk1 & _).
  assert (Hs1 : RegexTester.cache_ok s1).
  { pose proof (compile_pattern_cache_ok s pattern1 flags1 Hs) as H.
    by rewrite H1 in H. }
  destruct (compile_pattern_valid s1 pattern2 flags2 cp2 Hs1 Hc2)
    as (o2 & s2 & H2 & Ho2 & Hk2 & Hother).
  assert (Hs2 : RegexTester.cache_ok s2).
  { pose proof (compile_pattern_cache_ok s1 pattern2 flags2 Hs1) as H.
    by rewrite H2 in H. }
  assert (Hk1' : RegexTester._cache s2 !! RegexTester.cache_key pattern1 flags1
                 = Some o1).
  { rewrite Hother; done. }
  exists o1, s1, o2, s2. split_and!; try done.
  intros Eid.
  destruct (cached_is_compiled _ _ _ _ Hs2 Hk1') as [Hl1 _].
  destruct (cached_is_compiled _ _ _ _ Hs2 Hk2) as [Hl2 _].
  rewrite Eid in Hl1. congruence.
Qed.

(** C10: when the pattern compiles and does not match at the start of
    the text, [match] returns, and what it returns is the [MatchResult]
    with [matched = False], the empty string as [value], empty tuples as
    [groups] and [span], and [None] as [named_groups]. *)
Theorem match_failed_result `{RE : ReModule}
    (s : RegexTester.State) (pattern text : string) (flags : Z) (cp : Pattern) :
  RegexTester.reachable s ->
  re_compile pattern flags = Return cp ->
  pattern_match cp text = None ->
  exists s',
    RegexTester.match_ pattern text flags s
    = (Return (RegexTester.mkMatchResult false EmptyString [] [] None), s').
Proof.
  intros Hs Hc Hm. apply reachable_cache_ok in Hs.
  destruct (compile_pattern_valid s pattern flags cp Hs Hc)
    as (o & s1 & H1 & Ho & _).
  exists s1. unfold RegexTester.match_. by rewrite H1, Ho, Hm.
Qed.

(** ** Validation and the required match *)

(** C6: the empty pattern fails with [EmptyPatternError], in
    [validate_regex] and so in [find_pattern], and neither raises that
    error for any other pattern. *)
Theorem validate_regex_empty `{RE : ReModule} :
  let empty_error :=
    Exceptions.EmptyPatternError
      (Exceptions.mkRegexContext EmptyString None None
         (Some "Empty pattern provided")) in
  Exceptions.validate_regex EmptyString = Raise empty_error
  /\ (forall text raise_if_not_found,
        Exceptions.find_pattern EmptyString text raise_if_not_found
        = Raise empty_error)
  /\ (forall pattern context,
        Exceptions.validate_regex pattern
        = Raise (Exceptions.EmptyPatternError context) ->
        pattern = EmptyString)
  /\ (forall pattern text raise_if_not_found context,
        Exceptions.find_pattern pattern text raise_if_not_found
        = Raise (Exceptions.EmptyPatternError context) ->
        pattern = EmptyString).
Proof.
  assert (Hv : forall pattern context,
             Exceptions.validate_regex pattern
             = Raise (Exceptions.EmptyPatternError context) ->
             pattern = EmptyString).
  { intros pattern context. unfold Exceptions.validate_regex.
    destruct (String.eqb_spec pattern EmptyString) as [->|Hne]; [done|].
    destruct (re_compile pattern 0) as [p|[]]; discriminate. }
  simpl. split_and!; [done|done|exact Hv|].
  intros pattern text raise_if_not_found context.
  unfold Exceptions.find_pattern.
  destruct (Exceptions.validate_regex pattern) as [cp|e] eqn:Hval.
  - destruct (pattern_search cp text); [discriminate|].
    destruct raise_if_not_found; discriminate.
  - intros [= ->]. by apply (Hv pattern context).
Qed.

(** C7: for a pattern that passes validation, [find_pattern] with
    [raise_if_not_found = True] raises [PatternNotFoundError] carrying
    the pattern and the input text when the search finds nothing, and
    returns the text of the match the search found otherwise. *)
Theorem find_pattern_required `{RE : ReModule}
    (pattern text : string) (cp : Pattern) :
  Exceptions.validate_regex pattern = Return cp ->
  (pattern_search cp text = None ->
   Exceptions.find_pattern pattern text true
   = Raise (Exceptions.PatternNotFoundError
              (Exceptions.mkRegexContext pattern (Some text) (Some 0%Z)
                 (Some "Pattern not found in input string"))))
  /\ (forall m, pattern_search cp text = Some m ->
        Exceptions.find_pattern pattern text true = Return (Some (match_group m))).
Proof.
  intros Hv. unfold Exceptions.find_pattern. rewrite Hv.
  split; [intros ->; done | intros m ->; done].
Qed.

(** C5 (as amended): a non-empty pattern that [re.compile] rejects fails
    validation with [InvalidRegexError]; its context carries the pattern
    and, as [message], the text of the [re.error], which gives the
    reason; the context's [position] is [None], so no offset is carried
    as a field.  When the [re.error] has an offset, the message holds it
    after the reason in the words [at position n]; when it has none, the
    message is the reason alone. *)
Theorem validate_regex_invalid `{RE : ReModule} (pattern : string) (e : re_error) :
  pattern <> EmptyString ->
  re_compile pattern 0 = Raise (ReError e) ->
  Exceptions.validate_regex pattern
  = Raise (Exceptions.InvalidRegexError
             (Exceptions.mkRegexContext pattern None None (Some (re_error_str e))))
  /\ (forall p n,
        err_pattern e = Some p -> err_pos e = Some n ->
        exists suffix,
          re_error_str e
          = err_msg e ++ " at position " ++ str_int (Z.of_nat n) ++ suffix)
  /\ (err_pattern e = None \/ err_pos e = None -> re_error_str e = err_msg e).
Proof.
  intros Hne He. unfold Exceptions.validate_regex.
  destruct (String.eqb_spec pattern EmptyString) as [->|_]; [done|].
  rewrite He. split; [done|]. unfold re_error_str. split.
  - intros p n -> ->. destruct (contains newline p).
    + eexists. rewrite !append_assoc. reflexivity.
    + exists EmptyString. by rewrite append_nil_r.
  - intros [->| ->]; [done|]. by destruct (err_pattern e).
Qed.

(** ** The matcher of [Sre] *)

Module SreFacts.
Import Sre.
Local Open Scope nat_scope.
Local Open Scope list_scope.

(** *** The parser counts the groups it opens *)

Lemma bind_inv {A B} (m : parser A) (k : A -> parser B) st b st' :
  bind m k st = Return (b, st') ->
  exists a st1, m st = Return (a, st1) /\ k a st1 = Return (b, st').
Proof.
  unfold bind. destruct (m st) as [[a st1]|e]; [|done]. eauto.
Qed.

Lemma keeps_bind {A B} (m : parser A) (k : A -> parser B) :
  keeps m -> (forall a, keeps (k a)) -> keeps (bind m k).
Proof.
  intros Hm Hk st b st' H. apply bind_inv in H as (a & st1 & H1 & H2).
  apply Hm in H1. apply Hk in H2. congruence.
Qed.

Lemma keeps_ret {A} (a : A) : keeps (ret a).
Proof. intros st b st' [= <- <-]. done. Qed.
Lemma keeps_fail {A} e : keeps (@fail A e).
Proof. intros st b st' H. discriminate. Qed.
Lemma keeps_error {A} msg off : keeps (@error A msg off).
Proof. intros st b st' H. discriminate. Qed.
Lemma keeps_tell : keeps tell.
Proof. intros st b st' [= <- <-]. done. Qed.
Lemma keeps_peek : keeps peek.
Proof. intros st b st' [= <- <-]. done. Qed.
Lemma keeps_get_source : keeps get_source.
Proof. intros st b st' [= <- <-]. done. Qed.
Lemma keeps_remaining : keeps remaining.
Proof. intros st b st' [= <- <-]. done. Qed.
Lemma keeps_set_source s : keeps (set_source s).
Proof. intros st b st' [= <- <-]. done. Qed.
Lemma keeps_sourceget : keeps sourceget.
Proof.
  intros st b st'. unfold sourceget.
  destruct (tokenizer_next (source st)); [|done]. by intros [= <- <-].
Qed.
Lemma keeps_sourcematch c : keeps (sourcematch c).
Proof.
  intros st b st'. unfold sourcematch.
  destruct (next (source st)) as [[d|d]|]; try by intros [= <- <-].
  destruct (Ascii.eqb c d); [|by intros [= <- <-]].
  destruct (tokenizer_next (source st)); [|done]. by intros [= <- <-].
Qed.

Create HintDb keeps.
#[local] Hint Resolve keeps_ret keeps_fail keeps_error keeps_tell keeps_peek
  keeps_get_source keeps_remaining keeps_set_source keeps_sourceget
  keeps_sourcematch : keeps.

Ltac keeps_step :=
  repeat first
    [ apply keeps_bind; [|intros ?]
    | solve [auto with keeps]
    | match goal with
      | |- keeps (match ?x with _ => _ end) => destruct x
      | |- keeps (if ?x then _ else _) => destruct x
      | |- keeps (let 'pair _ _ := ?x in _) => destruct x
      end ].

Lemma keeps_getuntil n terminator name result : keeps (getuntil n terminator name result).
Proof. revert result. induction n as [|n IH]; intros result; simpl; keeps_step. Qed.
Lemma keeps_checkgroupname name off : keeps (checkgroupname name off).
Proof. unfold checkgroupname. keeps_step. Qed.
Lemma keeps_get_digits n lo : keeps (get_digits n lo).
Proof. revert lo. induction n as [|n IH]; intros lo; simpl; keeps_step. Qed.
Lemma keeps_escape c : keeps (_escape c).
Proof. unfold _escape, bad_escape. keeps_step. Qed.
Lemma keeps_class_escape c : keeps (_class_escape c).
Proof. unfold _class_escape, bad_escape. keeps_step. Qed.
Lemma keeps_set_code t : keeps (set_code t).
Proof. unfold set_code. keeps_step; apply keeps_class_escape. Qed.
#[local] Hint Resolve keeps_getuntil keeps_checkgroupname keeps_get_digits
  keeps_escape keeps_class_escape keeps_set_code : keeps.
Lemma keeps_parse_set n here set : keeps (parse_set n here set).
Proof. revert set. induction n as [|n IH]; intros set; simpl; keeps_step. Qed.
Lemma keeps_repeat_braces here src : keeps (repeat_braces here src).
Proof. unfold repeat_braces. keeps_step. Qed.
Lemma keeps_group_options : keeps group_options.
Proof. unfold group_options. keeps_step. Qed.

#[local] Hint Resolve keeps_parse_set keeps_repeat_braces keeps_group_options : keeps.

Lemma capturing_seq_app acc x :
  capturing (seq (acc ++ [x])) = capturing (seq acc) + capturing x.
Proof. induction acc as [|a acc IH]; simpl; [lia|]. rewrite IH. lia. Qed.

Lemma split_last_Some {A} (l : list A) before x :
  split_last l = Some (before, x) -> l = before ++ [x].
Proof.
  unfold split_last. destruct (rev l) as [|y r] eqn:Hr; [done|].
  intros [= <- <-]. rewrite <- (rev_involutive l), Hr. reflexivity.
Qed.

Lemma opengroup_groups name st g st' :
  opengroup name st = Return (g, st') -> groups st' = S (groups st).
Proof.
  unfold opengroup. destruct (_ <? _)%N; [done|].
  destruct name as [nm|]; [|by intros [= <- <-]].
  destruct (assoc_lookup nm (groupdict st)); [done|]. by intros [= <- <-].
Qed.

Ltac keep_first H1 :=
  match type of H1 with
  | ?m ?st = Return (?a, ?st1) =>
      let K := fresh "K" in
      assert (K : keeps m) by auto with keeps;
      apply K in H1; clear K
  end.

Lemma escape_capturing c st code st' :
  _escape c st = Return (code, st') -> capturing code = 0.
Proof.
  unfold _escape, CATEGORIES, ESCAPES, bad_escape.
  repeat match goal with
    | |- context [if ?b then _ else _] => destruct b
    end; simpl; try discriminate; by intros [= <- <-].
Qed.

Ltac pstep :=
  match goal with
  | H : bind ?m ?k ?st = Return _ |- _ =>
      let a := fresh "a" in let st1 := fresh "st" in let H1 := fresh "H" in
      apply bind_inv in H as (a & st1 & H1 & H);
      try pose proof (escape_capturing _ _ _ _ H1);
      try keep_first H1
  | H : ret _ _ = Return _ |- _ => injection H as ? ?; subst
  | H : fail _ _ = Return _ |- _ => discriminate H
  | H : error _ _ _ = Return _ |- _ => discriminate H
  | H : (let 'pair _ _ := ?x in _) _ = Return _ |- _ => destruct x
  | H : (match ?x with _ => _ end) _ = Return _ |- _ => destruct x eqn:?
  | H : (if ?x then _ else _) _ = Return _ |- _ => destruct x eqn:?
  end.

Lemma capturing_unwrap r :
  capturing match r with SUBPATTERN None p => p | _ => r end = capturing r.
Proof. destruct r as [| | | | | | | [g|] p | |]; reflexivity. Qed.

Ltac count_groups IHsub IHseq :=
  repeat match goal with
    | H : opengroup _ _ = Return _ |- _ => apply opengroup_groups in H
    | H : _parse_sub _ _ = Return _ |- _ => apply IHsub in H
    | H : _parse _ _ _ = Return _ |- _ => apply IHseq in H
    | H : split_last _ = Some _ |- _ => apply split_last_Some in H; subst
    | H : _ _ = Return (_, _) |- _ => keep_first H
    end;
  rewrite ?capturing_seq_app in *; simpl in *;
  rewrite ?capturing_unwrap in *; lia.

Lemma parse_counts fuel :
  (forall st r st',
     _parse_sub fuel st = Return (r, st') ->
     groups st' = groups st + capturing r)
  /\ (forall acc st r st',
        _parse fuel acc st = Return (r, st') ->
        groups st' + capturing (seq acc) = groups st + capturing r).
Proof.
  induction fuel as [|fuel [IHsub IHseq]]; [split; intros; discriminate|].
  split.
  - intros st r st' H. simpl in H.
    repeat pstep; count_groups IHsub IHseq.
  - intros acc st r st' H. simpl in H.
    repeat pstep; count_groups IHsub IHseq.
Qed.

(** The attribute [groups] of a compiled pattern is the number of
    capturing groups of its parse tree. *)
Lemma compile_groups pattern flags cp :
  compile pattern flags = Return cp -> sp_groups cp = capturing (sp_code cp).
Proof.
  unfold compile, parse. destruct (negb (flags_modelled flags)); [done|].
  destruct (tokenizer_init pattern) as [src|]; [|done].
  destruct (_parse_sub _ _) as [[p st]|] eqn:Hp; [|done].
  destruct (negb _); [done|]. destruct (next (source st)); [done|].
  intros [= <-]. simpl. apply (proj1 (parse_counts _)) in Hp. simpl in Hp. lia.
Qed.

(** *** The matcher stays inside the text *)

Section Exec.
Variables (flags : Z) (text : string) (n : nat).
Local Abbreviation reaches := (Sre.reaches text n).
Local Abbreviation sound := (Sre.sound text n).

Lemma get_Some_lt (s : string) i c : String.get i s = Some c -> i < String.length s.
Proof.
  revert i. induction s as [|a s IH]; intros [|i]; simpl; try discriminate.
  - lia.
  - intros H. apply IH in H. lia.
Qed.

Lemma one_sound test : sound (one text test).
Proof.
  intros pos m k res P Hpos Hm H Hk. unfold one in H.
  destruct (String.get pos text) as [c|] eqn:Hc; [|done].
  destruct (test c); [|done].
  apply get_Some_lt in Hc. apply (Hk (S pos) m); auto with lia.
Qed.

Lemma reaches_weaken pos pos' k res P :
  pos <= pos' -> reaches pos k res P -> reaches pos' k res P.
Proof. intros Hle Hk p m ? ? ? ?. apply (Hk p m); auto with lia. Qed.

Lemma max_until_sound item min max :
  sound item ->
  forall fuel count last_ptr, sound (max_until item min max fuel count last_ptr).
Proof.
  intros Hitem. induction fuel as [|fuel IH]; intros count last_ptr;
    intros pos m k res P Hpos Hm H Hk; simpl in H; [done|].
  destruct (count <? min)%N.
  - apply (Hitem _ _ _ _ P Hpos Hm H).
    intros pos' m' Hle Hlen Hm' H'.
    apply (IH _ _ _ _ _ _ P Hlen Hm' H'). by apply (reaches_weaken pos).
  - destruct (((count <? max)%N || (max =? MAXREPEAT)%N)
              && negb (same_ptr pos last_ptr)).
    + destruct (item pos m _) as [r|] eqn:Hi.
      * injection H as ->.
        apply (Hitem _ _ _ _ P Hpos Hm Hi).
        intros pos' m' Hle Hlen Hm' H'.
        apply (IH _ _ _ _ _ _ P Hlen Hm' H'). by apply (reaches_weaken pos).
      * by apply (Hk pos m).
    + by apply (Hk pos m).
Qed.

Lemma min_until_sound item min max :
  sound item ->
  forall fuel count last_ptr, sound (min_until item min max fuel count last_ptr).
Proof.
  intros Hitem. induction fuel as [|fuel IH]; intros count last_ptr;
    intros pos m k res P Hpos Hm H Hk; simpl in H; [done|].
  destruct (count <? min)%N.
  - apply (Hitem _ _ _ _ P Hpos Hm H).
    intros pos' m' Hle Hlen Hm' H'.
    apply (IH _ _ _ _ _ _ P Hlen Hm' H'). by apply (reaches_weaken pos).
  - destruct (k pos m) as [r|] eqn:Hkk.
    + injection H as ->. by apply (Hk pos m).
    + destruct (((max <=? count)%N && negb (max =? MAXREPEAT)%N)
                || same_ptr pos last_ptr); [done|].
      apply (Hitem _ _ _ _ P Hpos Hm H).
      intros pos' m' Hle Hlen Hm' H'.
      apply (IH _ _ _ _ _ _ P Hlen Hm' H'). by apply (reaches_weaken pos).
Qed.

Lemma set_mark_length group span (m : marks) :
  length (set_mark group span m) = length m.
Proof. unfold set_mark. apply length_insert. Qed.

(** The matcher moves forward only, stays inside the text and keeps
    the number of marks. *)
Lemma exec_sound r : sound (exec flags text r).
Proof.
  induction r as [| l | | negate set | a | r1 IH1 r2 IH2 | r1 IH1 r2 IH2
                 | group p IH | min max item IH | min max item IH];
    intros pos m k res P Hpos Hm H Hk; simpl in H.
  - by apply (Hk pos m).
  - by apply (one_sound _ _ _ _ _ P Hpos Hm H).
  - by apply (one_sound _ _ _ _ _ P Hpos Hm H).
  - by apply (one_sound _ _ _ _ _ P Hpos Hm H).
  - destruct (at_test flags text a pos); [|done]. by apply (Hk pos m).
  - apply (IH1 _ _ _ _ P Hpos Hm H).
    intros pos' m' Hle Hlen Hm' H'.
    apply (IH2 _ _ _ _ P Hlen Hm' H'). by apply (reaches_weaken pos).
  - destruct (exec flags text r1 pos m k) as [r|] eqn:H1.
    + injection H as ->. by apply (IH1 _ _ _ _ P Hpos Hm H1).
    + by apply (IH2 _ _ _ _ P Hpos Hm H).
  - destruct group as [g|].
    + apply (IH _ _ _ _ P Hpos Hm H).
      intros pos' m' Hle Hlen Hm' H'.
      apply (Hk pos' (set_mark g (pos, pos') m')); auto.
      by rewrite set_mark_length.
    + by apply (IH _ _ _ _ P Hpos Hm H).
  - by apply (max_until_sound _ _ _ IH _ _ _ _ _ _ _ P Hpos Hm H).
  - by apply (min_until_sound _ _ _ IH _ _ _ _ _ _ _ P Hpos Hm H).
Qed.

End Exec.

Lemma sre_match_bounds p text start must_advance e m :
  start <= String.length text ->
  sre_match p text start must_advance = Some (e, m) ->
  start <= e <= String.length text /\ length m = sp_groups p.
Proof.
  intros Hstart H. unfold sre_match in H.
  apply (exec_sound (sp_flags p) text (sp_groups p) (sp_code p) _ _ _ _ _ Hstart
           (repeat_length _ _) H).
  intros pos' m' Hle Hlen Hm' Hk.
  destruct (must_advance && (pos' =? start)); [done|].
  injection Hk as <- <-. auto.
Qed.

Lemma search_loop_bounds p text n start s e m :
  start + n <= S (String.length text) ->
  search_loop p text n start = Some (s, e, m) ->
  start <= s /\ s <= e <= String.length text /\ length m = sp_groups p.
Proof.
  revert start. induction n as [|n IH]; intros start Hn H; simpl in H; [done|].
  destruct (sre_match p text start false) as [[e' m']|] eqn:Hm.
  - injection H as <- <- <-.
    apply sre_match_bounds in Hm; [|lia]. split; [lia|done].
  - apply IH in H; [|lia]. destruct H as (? & ? & ?). split; [lia|done].
Qed.

Lemma sre_search_bounds p text pos must_advance s e m :
  pos <= String.length text ->
  sre_search p text pos must_advance = Some (s, e, m) ->
  pos <= s /\ s <= e <= String.length text /\ length m = sp_groups p.
Proof.
  intros Hpos H. unfold sre_search in H.
  destruct (sre_match p text pos must_advance) as [[e' m']|] eqn:Hm.
  - injection H as <- <- <-.
    apply sre_match_bounds in Hm; [|done]. split; [lia|done].
  - apply search_loop_bounds in H; [|lia]. destruct H as (? & ? & ?).
    split; [lia|done].
Qed.

Lemma pattern_match_ok p text m : pattern_match p text = Some m -> match_ok p text m.
Proof.
  unfold pattern_match. intros H.
  destruct (sre_match p text 0 false) as [[e mk]|] eqn:Hm; [|done].
  injection H as <-. apply sre_match_bounds in Hm; [|lia].
  unfold match_ok; simpl; intuition.
Qed.

Lemma pattern_search_ok p text m : pattern_search p text = Some m -> match_ok p text m.
Proof.
  unfold pattern_search. intros H.
  destruct (sre_search p text 0 false) as [[[s e] mk]|] eqn:Hm; [|done].
  injection H as <-. apply sre_search_bounds in Hm; [|lia].
  unfold match_ok; simpl; intuition.
Qed.

(** The search returns the first match: the pattern matches at no
    position before the one it reports. *)
Lemma search_loop_first p text n start s e m :
  search_loop p text n start = Some (s, e, m) ->
  sre_match p text s false = Some (e, m) /\
  forall i, start <= i < s -> sre_match p text i false = None.
Proof.
  revert start. induction n as [|n IH]; intros start H; simpl in H; [done|].
  destruct (sre_match p text start false) as [[e' m']|] eqn:Hm.
  - injection H as <- <- <-. split; [done|]. intros i Hi. lia.
  - apply IH in H as [H1 H2]. split; [done|]. intros i Hi.
    destruct (decide (i = start)) as [->|Hne]; [done|]. apply H2. lia.
Qed.

Lemma pattern_search_first p text m :
  pattern_search p text = Some m ->
  sre_match p text (m_start m) false = Some (m_end m, m_marks m) /\
  forall i, i < m_start m -> sre_match p text i false = None.
Proof.
  unfold pattern_search, sre_search. intros H.
  destruct (sre_match p text 0 false) as [[e mk]|] eqn:Hm.
  - injection H as <-. simpl. split; [done|]. intros i Hi. lia.
  - destruct (search_loop p text (String.length text - 0) 1)
      as [[[s e] mk]|] eqn:Hs; [|done].
    injection H as <-. simpl. apply search_loop_first in Hs as [H1 H2].
    split; [done|]. intros i Hi.
    destruct (decide (i = 0)) as [->|Hne]; [done|]. apply H2. lia.
Qed.

Lemma finditer_loop_ok p text fuel pos must_advance m :
  pos <= String.length text ->
  m ∈ finditer_loop p text fuel pos must_advance -> match_ok p text m.
Proof.
  revert pos must_advance. induction fuel as [|fuel IH];
    intros pos must_advance Hpos H; simpl in H.
  - by apply elem_of_nil in H.
  - destruct (sre_search p text pos must_advance) as [[[s e] mk]|] eqn:Hs.
    + apply sre_search_bounds in Hs; [|done]. destruct Hs as (? & ? & ?).
      apply elem_of_cons in H as [->|H].
      * unfold match_ok; simpl; intuition.
      * apply IH in H; [done|lia].
    + by apply elem_of_nil in H.
Qed.

Lemma pattern_finditer_ok p text m :
  m ∈ pattern_finditer p text -> match_ok p text m.
Proof. apply finditer_loop_ok. lia. Qed.

End SreFacts.

(** *** Slices of a text *)

Module Slices.
Local Open Scope nat_scope.


Lemma substring_all (s : string) : substring 0 (String.length s) s = s.
Proof. induction s as [|c s IH]; simpl; [done|]. by rewrite IH. Qed.

Lemma substring_0_app (s : string) b c :
  b <= c -> c <= String.length s ->
  (substring 0 b s ++ substring b (c - b) s)%string = substring 0 c s.
Proof.
  revert b c. induction s as [|a s IH]; intros [|b] [|c]; simpl; intros H1 H2;
    try lia; try reflexivity.
  change (String a (substring 0 b s ++ substring b (c - b) s)%string
          = String a (substring 0 c s)).
  rewrite IH; [done|lia|lia].
Qed.

(** Two adjacent slices make one. *)
Lemma slice_app (s : string) a b c :
  a <= b -> b <= c -> c <= String.length s ->
  (slice s a b ++ slice s b c)%string = slice s a c.
Proof.
  unfold slice. revert a b c. induction s as [|x s IH]; intros a b c H1 H2 H3.
  - simpl in H3. assert (a = 0) as -> by lia. assert (b = 0) as -> by lia.
    assert (c = 0) as -> by lia. reflexivity.
  - destruct a as [|a].
    + rewrite !Nat.sub_0_r. by apply substring_0_app.
    + destruct b as [|b]; [lia|]. destruct c as [|c]; [lia|].
      simpl in H3. simpl. apply IH; lia.
Qed.

Lemma slice_all (s : string) : slice s 0 (String.length s) = s.
Proof. unfold slice. rewrite Nat.sub_0_r. apply substring_all. Qed.


End Slices.

(** *** The matches of [finditer] *)

Module FindAll.
Import Sre.
Local Open Scope nat_scope.

(** An attempt that must advance does not end where it started. *)
Lemma sre_match_advances p text start e m :
  start <= String.length text ->
  sre_match p text start true = Some (e, m) -> e <> start.
Proof.
  intros Hstart H. unfold sre_match in H.
  apply (SreFacts.exec_sound (sp_flags p) text (sp_groups p) (sp_code p)
           _ _ _ _ _ Hstart (repeat_length _ _) H).
  intros pos' m' _ _ _ Hk. simpl in Hk.
  destruct (pos' =? start) eqn:E; [done|].
  injection Hk as <- <-. by apply Nat.eqb_neq.
Qed.

(** A search that must advance finds a match after [pos], or one at
    [pos] that is not empty; any search finds one at [pos] or later. *)
Lemma sre_search_advances p text pos must_advance s e m :
  pos <= String.length text ->
  sre_search p text pos must_advance = Some (s, e, m) ->
  pos <= s /\ s <= e <= String.length text /\
  (must_advance = true -> pos < s \/ s < e).
Proof.
  intros Hpos H.
  destruct (SreFacts.sre_search_bounds _ _ _ _ _ _ _ Hpos H) as (H1 & H2 & _).
  split; [done|]. split; [done|]. intros ->.
  unfold sre_search in H.
  destruct (sre_match p text pos true) as [[e' m']|] eqn:Hm.
  - injection H as <- <- <-. apply sre_match_advances in Hm; [|done]. lia.
  - apply SreFacts.search_loop_bounds in H; [|lia]. lia.
Qed.

(** Consecutive matches of [finditer] follow each other without
    overlap, and each lies further in the text than the one before. *)
Lemma finditer_loop_ordered p text fuel pos must_advance i m1 m2 :
  pos <= String.length text ->
  finditer_loop p text fuel pos must_advance !! i = Some m1 ->
  finditer_loop p text fuel pos must_advance !! S i = Some m2 ->
  m_end m1 <= m_start m2 /\ (m_start m1 < m_start m2 \/ m_end m1 < m_end m2).
Proof.
  revert pos must_advance i. induction fuel as [|fuel IH];
    intros pos must_advance i Hpos H1 H2; simpl in *; [done|].
  destruct (sre_search p text pos must_advance) as [[[s e] mk]|] eqn:Hs; [|done].
  apply SreFacts.sre_search_bounds in Hs as (? & ? & _); [|done].
  destruct i as [|i]; simpl in *.
  - injection H1 as <-. simpl.
    destruct fuel as [|fuel]; simpl in H2; [done|].
    destruct (sre_search p text e (e =? s)) as [[[s2 e2] mk2]|] eqn:Hs2; [|done].
    injection H2 as <-. simpl.
    apply sre_search_advances in Hs2 as (? & ? & Hadv); [|lia].
    split; [done|].
    destruct (e =? s) eqn:E.
    + apply Nat.eqb_eq in E. destruct (Hadv eq_refl); lia.
    + apply Nat.eqb_neq in E. lia.
  - apply (IH e (e =? s) i); [lia|done|done].
Qed.

Lemma pattern_match_head p text m :
  pattern_match p text = Some m ->
  exists rest, pattern_finditer p text = m :: rest.
Proof.
  unfold pattern_match, pattern_finditer. intros H.
  destruct (sre_match p text 0 false) as [[e mk]|] eqn:Hm; [|done].
  injection H as <-.
  replace (2 * String.length text + 3) with (S (2 * String.length text + 2)) by lia.
  simpl. unfold sre_search. rewrite Hm. eauto.
Qed.

End FindAll.

(** *** The model keeps what the library promises *)

Lemma returned_match_ok p text m :
  returned (RE := sre) p text m -> Sre.match_ok p text m.
Proof.
  intros [H|[H|H]].
  - by apply SreFacts.pattern_match_ok.
  - by apply SreFacts.pattern_search_ok.
  - by apply SreFacts.pattern_finditer_ok.
Qed.

Lemma groups_of_tuple (m : Sre.SreMatch) :
  Sre.groups_of m
  = map (Sre.group m) (seq 1 (length (Sre.m_marks m))).
Proof.
  unfold Sre.groups_of. apply list_eq. intros i.
  rewrite !list_lookup_fmap.
  destruct (Sre.m_marks m !! i) as [mk|] eqn:E.
  - rewrite (lookup_seq_lt _ _ _ (lookup_lt_Some _ _ _ E)). simpl.
    unfold Sre.marks in *. rewrite E. reflexivity.
  - rewrite lookup_seq_ge; [|by apply lookup_ge_None].
    unfold Sre.marks in *. by rewrite E.
Qed.

Lemma sre_spec : ReSpec (RE := sre).
Proof.
  split.
  - intros p text m H. apply returned_match_ok in H as (_ & _ & Hb & _).
    simpl. unfold len. lia.
  - intros p text m H. apply returned_match_ok in H as (Hstr & _).
    simpl. unfold Sre.group0. by rewrite Hstr, !Nat2Z.id.
  - done.
  - intros p text m H. apply returned_match_ok in H as (_ & _ & _ & Hlen).
    simpl. rewrite <- Hlen. apply groups_of_tuple.
  - intros p text i m1 m2 H1 H2.
    destruct (FindAll.finditer_loop_ordered _ _ _ _ _ _ _ _
                (Nat.le_0_l _) H1 H2).
    simpl. lia.
Qed.


(** ** The results of the matcher *)


(** C9: replacing the matches of [(\w+)@(\w+)] in ["write to a@b"] by the
    template [\2@\1] gives ["write to b@a"]. *)
Theorem replace_swaps_groups :
  fst (RegexTester.replace "(\w+)@(\w+)" "write to a@b" "\2@\1" 0
         RegexTester.init)
  = Return "write to b@a".
Proof. vm_compute. reflexivity. Qed.


(** ** The statements at concrete inputs *)

Section Instances.
Import RegexTester.

(** [re.compile("(")] fails: compiling it twice from a fresh compiler
    raises twice and stores nothing. *)
Lemma compile_pattern_invalid_unclosed :
  reachable (RE := sre) init /\
  Sre.compile "(" 0
  = Raise (ReError (mk_re_error "missing ), unterminated subpattern"
                      (Some "(") (Some 0%nat))) /\
  compile_pattern "(" 0 init
  = (Raise (RegexError
              "Invalid regex pattern: missing ), unterminated subpattern at position 0"),
     mkState ∅ [("(", 0%Z)]) /\
  (∅ : gmap string PatternObj) !! cache_key "(" 0 = None /\
  compile_pattern "(" 0 (mkState ∅ [("(", 0%Z)])
  = (Raise (RegexError
              "Invalid regex pattern: missing ), unterminated subpattern at position 0"),
     mkState ∅ [("(", 0%Z); ("(", 0%Z)]).
Proof.
  split; [apply reachable_init|]. split; [vm_compute; reflexivity|].
  apply (compile_pattern_invalid init "(" 0
           (mk_re_error "missing ), unterminated subpattern" (Some "(") (Some 0%nat))).
  - apply reachable_init.
  - vm_compute. reflexivity.
Defined.

(** Compiling [a+] twice gives the same object twice. *)
Lemma compile_pattern_idempotent_plus :
  exists o s1,
    compile_pattern (RE := sre) "a+" 0 init = (Return o, s1) /\
    compile_pattern "a+" 0 s1 = (Return o, s1) /\
    match_ "a+" "aab" 0 s1 = (fst (match_ "a+" "aab" 0 init), s1).
Proof.
  destruct (compile_pattern_idempotent (RE := sre) init "a+" 0
              (Sre.mkSrePattern "a+" 32 0 []
                 (Sre.Cat (Sre.MAX_REPEAT 1 Sre.MAXREPEAT (Sre.LITERAL "a"))
                    Sre.Empty)))
    as (o & s1 & H1 & _ & H2 & Hm & _).
  - apply reachable_init.
  - vm_compute. reflexivity.
  - exists o, s1. split; [exact H1|]. split; [exact H2|]. apply Hm.
Defined.

(** The patterns [a] and [b] live under the keys ["a_0"] and ["b_0"]. *)
Lemma distinct_keys_a_b :
  cache_key "a" 0 <> cache_key "b" 0 /\
  exists o1 s1 o2 s2,
    compile_pattern (RE := sre) "a" 0 init = (Return o1, s1) /\
    compile_pattern "b" 0 s1 = (Return o2, s2) /\
    _cache s2 !! "a_0" = Some o1 /\
    _cache s2 !! "b_0" = Some o2 /\
    obj_id o1 <> obj_id o2.
Proof.
  destruct (distinct_keys_distinct_entries (RE := sre) init "a" "b" 0 0
              (Sre.mkSrePattern "a" 32 0 [] (Sre.Cat (Sre.LITERAL "a") Sre.Empty))
              (Sre.mkSrePattern "b" 32 0 [] (Sre.Cat (Sre.LITERAL "b") Sre.Empty)))
    as [Hk (o1 & s1 & o2 & s2 & H1 & H2 & Hl1 & Hl2 & _ & _ & Hid)].
  - apply reachable_init.
  - discriminate.
  - vm_compute. reflexivity.
  - vm_compute. reflexivity.
  - split; [exact Hk|]. exists o1, s1, o2, s2.
    split; [exact H1|]. split; [exact H2|]. split; [exact Hl1|].
    split; [exact Hl2|exact Hid].
Defined.

(** [a] does not match at the start of ["b"]. *)
Lemma match_failed_result_a_b :
  exists s',
    match_ (RE := sre) "a" "b" 0 init
    = (Return (mkMatchResult false EmptyString [] [] None), s').
Proof.
  apply (match_failed_result (RE := sre) init "a" "b" 0
           (Sre.mkSrePattern "a" 32 0 [] (Sre.Cat (Sre.LITERAL "a") Sre.Empty))).
  - apply reachable_init.
  - vm_compute. reflexivity.
  - vm_compute. reflexivity.
Defined.




End Instances.

Section ValidationInstances.
Import Exceptions.

(** C5, counterexample: the error raised for an unclosed parenthesis
    has no [position]; the offset is text inside [message]. *)
Lemma invalid_regex_error_without_position :
  exists context,
    validate_regex (RE := sre) "(unclosed parenthesis"
    = Raise (InvalidRegexError context) /\
    message context
    = Some "missing ), unterminated subpattern at position 0" /\
    position context = None /\
    ~ (exists offset, position context = Some offset).
Proof.
  eexists. split; [vm_compute; reflexivity|]. simpl.
  split; [done|]. split; [done|]. intros [offset H]. discriminate.
Qed.

(** [validate_regex] on an unclosed parenthesis. *)
Lemma validate_regex_invalid_unclosed :
  validate_regex (RE := sre) "(unclosed parenthesis"
  = Raise (InvalidRegexError
             (mkRegexContext "(unclosed parenthesis" None None
                (Some "missing ), unterminated subpattern at position 0"))).
Proof.
  destruct (validate_regex_invalid (RE := sre) "(unclosed parenthesis"
              (mk_re_error "missing ), unterminated subpattern"
                 (Some "(unclosed parenthesis") (Some 0%nat))) as [H _].
  - discriminate.
  - vm_compute. reflexivity.
  - exact H.
Defined.

(** One pattern of each kind of syntax error: each is rejected with
    the reason and the offset inside the message, and no [position]. *)
Example validate_regex_invalid_kinds :
  map (validate_regex (RE := sre))
      ["a)"; "[abc"; "*a"; "a{3,2}"; "\q"; "(?P<n>a)(?P<n>b)"; "a**"]
  = map (fun '(p, m) =>
           Raise (InvalidRegexError (mkRegexContext p None None (Some m))))
      [("a)", "unbalanced parenthesis at position 1");
       ("[abc", "unterminated character set at position 0");
       ("*a", "nothing to repeat at position 0");
       ("a{3,2}", "min repeat greater than max repeat at position 2");
       ("\q", "bad escape \q at position 0");
       ("(?P<n>a)(?P<n>b)",
        "redefinition of group name 'n' as group 2; was group 1 at position 12");
       ("a**", "multiple repeat at position 2")].
Proof. vm_compute. reflexivity. Qed.

(** [find_pattern] on the two examples of the source: [\d+] is not
    found in ["no numbers here"], [\w+] finds ["Hello"]. *)
Lemma find_pattern_required_examples :
  find_pattern (RE := sre) "\d+" "no numbers here" true
  = Raise (PatternNotFoundError
             (mkRegexContext "\d+" (Some "no numbers here") (Some 0%Z)
                (Some "Pattern not found in input string")))
  /\ find_pattern (RE := sre) "\w+" "Hello, World!" true = Return (Some "Hello").
Proof.
  split.
  - destruct (find_pattern_required (RE := sre) "\d+" "no numbers here"
                (Sre.mkSrePattern "\d+" 32 0 []
                   (Sre.Cat (Sre.MAX_REPEAT 1 Sre.MAXREPEAT
                               (Sre.IN false [Sre.SET_CATEGORY Sre.CATEGORY_DIGIT]))
                      Sre.Empty))) as [H _].
    + vm_compute. reflexivity.
    + apply H. vm_compute. reflexivity.
  - destruct (find_pattern_required (RE := sre) "\w+" "Hello, World!"
                (Sre.mkSrePattern "\w+" 32 0 []
                   (Sre.Cat (Sre.MAX_REPEAT 1 Sre.MAXREPEAT
                               (Sre.IN false [Sre.SET_CATEGORY Sre.CATEGORY_WORD]))
                      Sre.Empty))) as [_ H].
    + vm_compute. reflexivity.
    + apply (H (Sre.mkSreMatch "Hello, World!"
                  (Sre.mkSrePattern "\w+" 32 0 []
                     (Sre.Cat (Sre.MAX_REPEAT 1 Sre.MAXREPEAT
                                 (Sre.IN false [Sre.SET_CATEGORY Sre.CATEGORY_WORD]))
                        Sre.Empty))
                  0 5 [])).
      vm_compute. reflexivity.
Defined.

End ValidationInstances.

(** * Further properties of the sources *)

(** ** [RegexCompiler]: clearing and keeping entries *)

(** X1: [clear_cache] empties the cache of the compiler, so that the
    next [compile_pattern] calls [re.compile] again; but [re.compile]
    keeps a cache of its own, and the object that comes back and is
    stored again is the very object the compiler held before its cache
    was cleared.  This holds as long as the cache of [re] has not been
    full (at most [_MAXCACHE] calls to [re.compile] so far) and the flag
    [DEBUG] is not set. *)
Theorem clear_cache_keeps_objects `{RE : ReModule}
    (s : RegexTester.State) (pattern : string) (flags : Z)
    (o : RegexTester.PatternObj) :
  RegexTester.reachable s ->
  (length (RegexTester.re_calls s) <= RegexTester._MAXCACHE)%nat ->
  Z.land flags RegexTester.DEBUG = 0 ->
  RegexTester._cache s !! RegexTester.cache_key pattern flags = Some o ->
  RegexTester._cache (RegexTester.clear_cache s) = ∅ /\
  RegexTester.compile_pattern pattern flags (RegexTester.clear_cache s)
  = (Return o,
     RegexTester.mkState {[ RegexTester.cache_key pattern flags := o ]}
       (RegexTester.re_calls s ++ [(pattern, flags)])%list).
Proof.
  intros Hs Hlen Hd Ho. split; [done|].
  pose proof (reachable_cache_linked s Hs Hlen pattern flags o Ho Hd) as Hre.
  apply reachable_cache_ok in Hs.
  destruct (cached_is_compiled _ _ _ _ Hs Ho) as [_ Hc].
  unfold RegexTester.compile_pattern, RegexTester.clear_cache.
  cbn [RegexTester._cache RegexTester.re_calls].
  rewrite lookup_empty, Hc. unfold RegexTester.re_object_id. rewrite Hre.
  rewrite insert_empty. by destruct o.
Qed.

(** X2: [compile_pattern], and so [match], [find_all] and [replace], never
    replace nor remove an entry of the cache: whatever a key holds, it
    still holds afterwards. *)
Theorem cache_entries_persist `{RE : ReModule}
    (s : RegexTester.State) (k : string) (o : RegexTester.PatternObj)
    (pattern text replacement : string) (flags : Z) :
  RegexTester._cache s !! k = Some o ->
  RegexTester._cache (snd (RegexTester.compile_pattern pattern flags s)) !! k
  = Some o /\
  RegexTester._cache (snd (RegexTester.match_ pattern text flags s)) !! k
  = Some o /\
  RegexTester._cache (snd (RegexTester.find_all pattern text flags s)) !! k
  = Some o /\
  RegexTester._cache
    (snd (RegexTester.replace pattern text replacement flags s)) !! k
  = Some o.
Proof.
  intros Hk.
  assert (H : RegexTester._cache
                (snd (RegexTester.compile_pattern pattern flags s)) !! k = Some o).
  { unfold RegexTester.compile_pattern.
    destruct (RegexTester._cache s !! RegexTester.cache_key pattern flags)
      as [o'|] eqn:Hl; [done|].
    destruct (re_compile pattern flags) as [p|[]]; simpl; try done.
    rewrite lookup_insert_ne; [done|]. intros <-. congruence. }
  split; [done|].
  unfold RegexTester.match_, RegexTester.find_all, RegexTester.replace.
  destruct (RegexTester.compile_pattern pattern flags s) as [[c|e] s1];
    simpl in *; [|done].
  split_and!; [by destruct (pattern_match _ _) | done
              | by destruct (pattern_sub _ _ _)].
Qed.

(** ** [RegexValidator] *)

(** X3: [validate_pattern] answers [True] exactly for the patterns
    [compile_pattern] (with no flags) compiles, and [False] exactly for
    those it rejects with [RegexError], whatever the cache holds. *)
Theorem validate_pattern_agrees `{RE : ReModule}
    (s : RegexTester.State) (pattern : string) :
  RegexTester.reachable s ->
  (RegexTester.validate_pattern pattern = Return true <->
   exists o, fst (RegexTester.compile_pattern pattern 0 s) = Return o)
  /\ (RegexTester.validate_pattern pattern = Return false <->
      exists msg, fst (RegexTester.compile_pattern pattern 0 s)
                  = Raise (RegexTester.RegexError msg)).
Proof.
  intros Hs. apply reachable_cache_ok in Hs.
  unfold RegexTester.validate_pattern.
  destruct (re_compile pattern 0) as [cp|e] eqn:Hc.
  - destruct (compile_pattern_valid s pattern 0 cp Hs Hc) as (o & s1 & H1 & _).
    rewrite H1. simpl. split; split; try done; eauto. by intros [msg ?].
  - assert (Hk : RegexTester._cache s !! RegexTester.cache_key pattern 0 = None).
    { destruct (RegexTester._cache s !! RegexTester.cache_key pattern 0)
        as [o|] eqn:Hk; [|done].
      destruct (cached_is_compiled _ _ _ _ Hs Hk) as [_ Hr]. congruence. }
    unfold RegexTester.compile_pattern. rewrite Hk, Hc.
    destruct e; simpl; split; split; try done; eauto;
      intros [x Hx]; discriminate.
Qed.

(** ** [find_pattern] without the required match *)

(** X4: With [raise_if_not_found = False], [find_pattern] never raises
    [PatternNotFoundError]: for a pattern that passes validation it
    returns the text of the match, or [None] when the search finds
    nothing.  It returns whatever the call with [True] returns, and fails
    on the pattern exactly as that one does. *)
Theorem find_pattern_optional `{RE : ReModule} (pattern text : string) :
  (forall context,
     Exceptions.find_pattern pattern text false
     <> Raise (Exceptions.PatternNotFoundError context))
  /\ (forall cp,
        Exceptions.validate_regex pattern = Return cp ->
        Exceptions.find_pattern pattern text false
        = Return (match_group <$> pattern_search cp text))
  /\ (forall v,
        Exceptions.find_pattern pattern text true = Return v ->
        Exceptions.find_pattern pattern text false = Return v)
  /\ (forall e,
        Exceptions.validate_regex pattern = Raise e ->
        Exceptions.find_pattern pattern text false = Raise e /\
        Exceptions.find_pattern pattern text true = Raise e).
Proof.
  unfold Exceptions.find_pattern.
  destruct (Exceptions.validate_regex pattern) as [cp|e] eqn:Hv.
  - split_and!.
    + intros context. by destruct (pattern_search cp text).
    + intros ? [= <-]. by destruct (pattern_search cp text).
    + intros v. by destruct (pattern_search cp text).
    + intros e. discriminate.
  - split_and!.
    + intros context [= ->]. revert Hv. unfold Exceptions.validate_regex.
      destruct (String.eqb pattern EmptyString); [done|].
      by destruct (re_compile pattern 0) as [|[]].
    + intros; discriminate.
    + intros; discriminate.
    + by intros e0 [= <-].
Qed.

Section FindAllResults.
Context `{RE : ReModule}.
Import RegexTester.



End FindAllResults.

Module Replace.
Import Sre.
Local Open Scope nat_scope.

Lemma parse_template_whole_match p : parse_template "\g<0>" p = Return [T_GROUP 0].
Proof.
  destruct p as [pattern flags [|n] groupindex code]; vm_compute; reflexivity.
Qed.

(** Replacing every match by itself rebuilds the rest of the text. *)
Lemma sub_loop_whole_match p text fuel pos must_advance :
  pos <= String.length text ->
  sub_loop p text [T_GROUP 0] fuel pos must_advance
  = slice text pos (String.length text).
Proof.
  revert pos must_advance. induction fuel as [|fuel IH];
    intros pos must_advance Hpos; simpl; [done|].
  destruct (sre_search p text pos must_advance) as [[[s e] m]|] eqn:Hs; [|done].
  apply SreFacts.sre_search_bounds in Hs as (? & [? ?] & _); [|done].
  rewrite IH; [|lia].
  unfold expand_template, group0. simpl.
  rewrite (Slices.slice_app text s e); [|lia..].
  apply Slices.slice_app; lia.
Qed.

End Replace.

Section ReplaceResults.
Import RegexTester.

(** X8: On the model [Sre] of [re], [replace] with the template
    [\g<0>], which stands for the whole match, returns the text
    unchanged, for every pattern and flags the model compiles: the
    pieces [replace] keeps and the matches it replaces make up the text,
    in order. *)
Theorem replace_by_whole_match_is_identity
    (s s' : State) (pattern text : string) (flags : Z) (o : PatternObj) :
  compile_pattern (RE := sre) pattern flags s = (Return o, s') ->
  replace pattern text "\g<0>" flags s = (Return text, s').
Proof.
  intros H. unfold replace. rewrite H. simpl. unfold Sre.pattern_sub.
  rewrite Replace.parse_template_whole_match.
  rewrite Replace.sub_loop_whole_match; [|lia].
  by rewrite Slices.slice_all.
Qed.

(** X9: For a pattern that compiles, [replace] hands on whatever [sub]
    does: what [sub] returns it returns, and what [sub] raises, a
    [re.error] for the replacement template included, reaches the caller
    as it is.  It is never turned into [RegexError], as the [re.error]
    of a pattern is. *)
Theorem replace_hands_errors_on `{RE : ReModule}
    (s s' : State) (pattern text replacement : string) (flags : Z)
    (o : PatternObj) :
  compile_pattern pattern flags s = (Return o, s') ->
  (forall r, pattern_sub (obj_pattern o) replacement text = Return r ->
             replace pattern text replacement flags s = (Return r, s')) /\
  (forall e, pattern_sub (obj_pattern o) replacement text = Raise e ->
             replace pattern text replacement flags s = (Raise (Uncaught e), s')) /\
  (forall msg, fst (replace pattern text replacement flags s)
               <> Raise (RegexError msg)).
Proof.
  intros H. unfold replace. rewrite H. split_and!.
  - by intros r ->.
  - by intros e ->.
  - intros msg. by destruct (pattern_sub _ _ _).
Qed.

End ReplaceResults.

Section FindPatternResults.
Import Exceptions.


(** On the model of [re] the match is the first one: the pattern
    matches at no offset before [start]. *)
Lemma find_pattern_returns_first_slice
    (pattern text v : string) (raise_if_not_found : bool) :
  find_pattern (RE := sre) pattern text raise_if_not_found = Return (Some v) ->
  exists (cp : Sre.SrePattern) (start stop : nat),
    validate_regex pattern = Return cp /\
    v = slice text start stop /\
    (start <= stop <= String.length text)%nat /\
    Sre.sre_match cp text start false <> None /\
    forall i, (i < start)%nat -> Sre.sre_match cp text i false = None.
Proof.
  unfold find_pattern.
  destruct (validate_regex pattern) as [cp|e]; [|done].
  destruct (pattern_search cp text) as [m|] eqn:Hs;
    [|by destruct raise_if_not_found].
  intros [= <-].
  destruct (SreFacts.pattern_search_ok _ _ _ Hs) as (Hstr & _ & Hb & _).
  destruct (SreFacts.pattern_search_first _ _ _ Hs) as [H1 H2].
  exists cp, (Sre.m_start m), (Sre.m_end m). split_and!.
  - done.
  - simpl. unfold Sre.group0. by rewrite Hstr.
  - apply Hb.
  - apply Hb.
  - congruence.
  - exact H2.
Qed.

End FindPatternResults.

Section ValidatorResults.
Import RegexTester.

(** X11: Every predefined pattern is a pattern [validate_pattern] accepts;
    [CUSTOM] alone has none, and asking for it raises [RegexError]. *)
Theorem predefined_patterns_are_valid (pattern_type : PatternType) :
  match get_predefined_pattern pattern_type with
  | Return (Some pattern) =>
      pattern_type <> CUSTOM /\
      validate_pattern (RE := sre) pattern = Return true
  | Return None => False
  | Raise e =>
      pattern_type = CUSTOM /\
      e = RegexError "Custom pattern type requires a pattern string"
  end.
Proof. destruct pattern_type; simpl; split; try done; vm_compute; reflexivity. Qed.

(** X12: The two validators differ on the empty pattern only:
    [validate_pattern] accepts what [validate_regex] accepts, and the
    empty pattern besides, which [validate_regex] rejects. *)
Theorem validators_differ_on_empty (pattern : string) :
  validate_pattern (RE := sre) pattern = Return true <->
  pattern = EmptyString \/
  exists cp, Exceptions.validate_regex (RE := sre) pattern = Return cp.
Proof.
  unfold validate_pattern, Exceptions.validate_regex.
  destruct (String.eqb_spec pattern EmptyString) as [->|Hne].
  - split; [by left|]. intros _. vm_compute. reflexivity.
  - destruct (re_compile pattern 0) as [cp|[]]; split; try done; eauto;
      intros [?|[? ?]]; done.
Qed.

End ValidatorResults.

(** ** Escaped strings are read and matched literally *)

Module Escaping.
Import Sre.
Local Open Scope nat_scope.
Local Open Scope list_scope.

Section Escaped.
Variable special : ascii -> bool.
Hypothesis special_covers : forall c, contains c SPECIAL_CHARS = true -> special c = true.
Hypothesis special_literal : forall c, special c = true -> _escape c = ret (LITERAL c).

Local Abbreviation tok_of := (Sre.tok_of special).
Local Abbreviation esc_list := (Sre.esc_list special).
Local Abbreviation tk_ok := (Sre.tk_ok special).

Lemma special_backslash : special backslash = true.
Proof. apply special_covers. reflexivity. Qed.

Lemma tokenizer_next_escaped str idx nx l :
  exists t, tokenizer_next (mkTokenizer str idx nx (esc_list l)) = Return t /\ tk_ok l t.
Proof.
  destruct l as [|c l]; simpl.
  - eexists. split; [reflexivity|]. by split.
  - unfold tokenizer_next. simpl. unfold escape_char at 1.
    destruct (special c) eqn:Hc; simpl.
    + eexists. split; [reflexivity|].
      split; simpl; [|done]. unfold tok_of. by rewrite Hc.
    + destruct (Ascii.eqb_spec c backslash) as [->|Hne].
      * rewrite special_backslash in Hc. discriminate.
      * eexists. split; [reflexivity|]. split; simpl; [|done].
        unfold tok_of. by rewrite Hc.
Qed.

Lemma sourceget_escaped st c l :
  tk_ok (c :: l) (source st) ->
  exists st', sourceget st = Return (Some (tok_of c), st') /\
    tk_ok l (source st') /\ groups st' = groups st /\ groupdict st' = groupdict st.
Proof.
  intros [Hn Hr]. simpl in *. unfold sourceget. rewrite Hn.
  destruct (source st) as [str idx nx rs]. simpl in *. subst rs.
  destruct (tokenizer_next_escaped str idx nx l) as (t & -> & Ht).
  eexists. split; [reflexivity|]. simpl. done.
Qed.

Lemma parse_plain_char f acc st c :
  next (source st) = Some (Ch c) ->
  contains c SPECIAL_CHARS = false ->
  _parse (S f) acc st
  = bind sourceget (fun _ => _parse f (acc ++ [LITERAL c])) st.
Proof.
  intros Hn Hc. simpl. unfold bind at 1. unfold peek. rewrite Hn.
  destruct c as [[] [] [] [] [] [] [] []]; try discriminate Hc; reflexivity.
Qed.

Lemma parse_escaped_char f acc st c :
  next (source st) = Some (Esc c) ->
  _parse (S f) acc st
  = bind sourceget
      (fun _ => bind (_escape c) (fun code => _parse f (acc ++ [code]))) st.
Proof. intros Hn. simpl. unfold bind at 1. unfold peek. by rewrite Hn. Qed.

(** The parser reads an escaped string as the sequence of its
    characters. *)
Lemma parse_escaped l :
  forall fuel acc st,
    length l < fuel -> tk_ok l (source st) ->
    exists st',
      _parse fuel acc st = Return (seq (acc ++ map LITERAL l), st') /\
      next (source st') = None /\
      groups st' = groups st /\ groupdict st' = groupdict st.
Proof.
  induction l as [|c l IH]; intros fuel acc st Hf Hok.
  - destruct fuel as [|f]; [simpl in Hf; lia|].
    destruct Hok as [Hn _]. simpl in Hn.
    exists st. simpl. unfold bind, peek. rewrite Hn. simpl.
    by rewrite app_nil_r.
  - destruct fuel as [|f]; [simpl in Hf; lia|]. simpl in Hf.
    destruct (sourceget_escaped st c l Hok) as (st1 & Hget & Hok1 & Hg & Hd).
    destruct (IH f (acc ++ [LITERAL c]) st1 ltac:(lia) Hok1)
      as (st' & Hp & Hn' & Hg' & Hd').
    exists st'. rewrite <- app_assoc in Hp. simpl in Hp.
    split_and!; [|done|congruence|congruence].
    destruct Hok as [Hn _]. simpl in Hn. unfold tok_of in Hn, Hget.
    destruct (special c) eqn:Hc.
    + rewrite (parse_escaped_char _ _ _ c Hn). unfold bind at 1. rewrite Hget.
      rewrite (special_literal c Hc). unfold bind, ret. exact Hp.
    + rewrite (parse_plain_char _ _ _ c Hn).
      * unfold bind at 1. rewrite Hget. exact Hp.
      * destruct (contains c SPECIAL_CHARS) eqn:E; [|done].
        apply special_covers in E. congruence.
Qed.

Lemma list_ascii_of_string_app s1 s2 :
  list_ascii_of_string (s1 ++ s2)%string
  = list_ascii_of_string s1 ++ list_ascii_of_string s2.
Proof.
  induction s1 as [|a s1 IH]; [done|].
  change (a :: list_ascii_of_string (s1 ++ s2)%string
          = a :: (list_ascii_of_string s1 ++ list_ascii_of_string s2)).
  by rewrite IH.
Qed.

Lemma concat_empty_cons x xs :
  String.concat EmptyString (x :: xs) = (x ++ String.concat EmptyString xs)%string.
Proof. destruct xs as [|y xs]; simpl; [by rewrite append_nil_r|done]. Qed.

Lemma escape_with_list pattern :
  list_ascii_of_string (escape_with special pattern)
  = esc_list (list_ascii_of_string pattern).
Proof.
  unfold escape_with, esc_list.
  induction (list_ascii_of_string pattern) as [|c l IH]; [done|].
  rewrite map_cons, concat_empty_cons, list_ascii_of_string_app, IH.
  reflexivity.
Qed.

Lemma esc_list_length l : length l <= length (esc_list l).
Proof.
  induction l as [|c l IH]; simpl; [lia|].
  rewrite length_app. unfold escape_char. destruct (special c); simpl; lia.
Qed.

(** Compiling an escaped string gives the pattern that has no group and
    stands for the string's characters, one after the other. *)
Lemma compile_escaped pattern flags :
  flags_modelled flags = true ->
  (Z.land flags SRE_FLAG_LOCALE =? 0)%Z = true ->
  compile (escape_with special pattern) flags
  = Return (mkSrePattern (escape_with special pattern)
              (Z.lor flags SRE_FLAG_UNICODE) 0 []
              (seq (map LITERAL (list_ascii_of_string pattern)))).
Proof.
  intros Hf Hl. unfold compile. rewrite Hf. simpl. unfold parse.
  unfold tokenizer_init. rewrite escape_with_list.
  destruct (tokenizer_next_escaped (escape_with special pattern) 0 None
              (list_ascii_of_string pattern)) as (t & -> & Ht).
  set (F := 2 * String.length (escape_with special pattern) + 3).
  replace (2 * String.length (escape_with special pattern) + 4) with (S F) by lia.
  destruct (parse_escaped (list_ascii_of_string pattern) F [] (mkPState t 1 []))
    as (st' & Hp & Hn & Hg & Hd); [|done|].
  { pose proof (esc_list_length (list_ascii_of_string pattern)) as Hlen.
    rewrite <- escape_with_list in Hlen.
    assert (length (list_ascii_of_string (escape_with special pattern))
            = String.length (escape_with special pattern)) as E.
    { generalize (escape_with special pattern). intros s.
      induction s as [|a s IH]; simpl; [done|]. by rewrite IH. }
    unfold F. lia. }
  simpl. unfold bind at 1. rewrite Hp. unfold bind, sourcematch. rewrite Hn.
  simpl. rewrite Hl. simpl. rewrite Hn. simpl in *. by rewrite Hg, Hd.
Qed.

End Escaped.

Section Literals.
Variables (flags : Z) (text : string).
Hypothesis case_sensitive : ignorecase flags = false.

Lemma substring_from pos :
  substring pos (String.length text - pos) text
  = match String.get pos text with
    | Some t => String t (substring (S pos) (String.length text - S pos) text)
    | None => EmptyString
    end.
Proof.
  clear case_sensitive. revert pos.
  induction text as [|a s IH]; intros [|pos]; simpl; try done;
    rewrite ?Nat.sub_0_r; done.
Qed.

(** A sequence of literals matches exactly where the text goes on with
    their characters. *)
Lemma exec_literals l pos m k :
  exec flags text (seq (map LITERAL l)) pos m k
  = if String.prefix (string_of_list_ascii l)
         (substring pos (String.length text - pos) text)
    then k (pos + length l) m else None.
Proof.
  revert pos. induction l as [|c l IH]; intros pos; simpl.
  - rewrite Nat.add_0_r. by destruct (substring pos _ text).
  - unfold one. rewrite substring_from.
    destruct (String.get pos text) as [t|]; [|done].
    unfold literal_test. rewrite case_sensitive.
    destruct (ascii_dec c t) as [->|Hne].
    + rewrite Ascii.eqb_refl, IH. simpl.
      destruct (ascii_dec t t); [|done]. by rewrite Nat.add_succ_r.
    + simpl. destruct (ascii_dec c t); [done|].
      by apply Ascii.eqb_neq in Hne as ->.
Qed.

End Literals.

Lemma length_list_ascii_of_string s :
  length (list_ascii_of_string s) = String.length s.
Proof. induction s as [|a s IH]; simpl; [done|]. by rewrite IH. Qed.

(** The pattern of a sequence of literals matches at the start of a
    text exactly when the text starts with them, and then matches just
    them. *)
Lemma match_literals pattern_text flags (s text : string) :
  ignorecase flags = false ->
  let cp := mkSrePattern pattern_text flags 0 []
              (seq (map LITERAL (list_ascii_of_string s))) in
  pattern_match cp text
  = if String.prefix s text
    then Some (mkSreMatch text cp 0 (String.length s) [])
    else None.
Proof.
  intros Hcase. simpl. unfold pattern_match, sre_match. simpl.
  rewrite (exec_literals flags text Hcase).
  rewrite Nat.sub_0_r, Slices.substring_all, string_of_list_ascii_of_string.
  destruct (String.prefix s text); [|done].
  by rewrite length_list_ascii_of_string.
Qed.

Lemma utils_special_covers c :
  contains c SPECIAL_CHARS = true -> contains c Utils.special_chars = true.
Proof. destruct c as [[] [] [] [] [] [] [] []]; try discriminate; reflexivity. Qed.

Lemma utils_special_literal c :
  contains c Utils.special_chars = true -> _escape c = ret (LITERAL c).
Proof. destruct c as [[] [] [] [] [] [] [] []]; try discriminate; reflexivity. Qed.

Lemma escape_special_covers c :
  contains c SPECIAL_CHARS = true -> is_escape_special c = true.
Proof. destruct c as [[] [] [] [] [] [] [] []]; try discriminate; reflexivity. Qed.

Lemma escape_special_literal c :
  is_escape_special c = true -> _escape c = ret (LITERAL c).
Proof. destruct c as [[] [] [] [] [] [] [] []]; try discriminate; reflexivity. Qed.

End Escaping.

Section EscapeResults.
Import Sre.

(** What compiling the escaped form of [s] gives, whatever the set of
    escaped characters, as long as it holds the characters the parser
    treats specially and only characters that an escape leaves as they
    are: a pattern that matches at the start of a text exactly when the
    text starts with [s], and then matches [s]. *)
Lemma escaped_matches_literally (special : ascii -> bool) (s text : string) :
  (forall c, contains c SPECIAL_CHARS = true -> special c = true) ->
  (forall c, special c = true -> _escape c = ret (LITERAL c)) ->
  exists cp : SrePattern,
    compile (escape_with special s) 0 = Return cp /\
    sp_groups cp = 0%nat /\
    (String.prefix s text = true ->
     exists m, pattern_match cp text = Some m /\
               group0 m = s /\ span_of m = (0, len s)%Z) /\
    (String.prefix s text = false -> pattern_match cp text = None).
Proof.
  intros H1 H2. eexists. split.
  { apply (Escaping.compile_escaped special H1 H2); reflexivity. }
  split; [done|].
  pose proof (Escaping.match_literals (escape_with special s)
                (Z.lor 0 SRE_FLAG_UNICODE) s text eq_refl) as Hm.
  simpl in Hm. rewrite Hm. split.
  - intros Hp. rewrite Hp. eexists. split; [reflexivity|].
    unfold group0, span_of. simpl. split; [|done].
    apply String.prefix_correct in Hp. unfold slice.
    by rewrite Nat.sub_0_r.
  - intros Hp. by rewrite Hp.
Qed.

(** X13: [escape_special_chars] turns any string into a valid pattern that
    stands for the string itself: the pattern has no group, and it
    matches at the start of a text exactly when the text starts with
    the string, the match being the string. *)
Theorem escape_special_chars_is_literal (pattern text : string) :
  exists cp : SrePattern,
    re_compile (Utils.escape_special_chars pattern) 0 = Return cp /\
    Utils.is_valid_pattern (RE := sre) (Utils.escape_special_chars pattern)
    = Return true /\
    pattern_groups cp = 0%nat /\
    (String.prefix pattern text = true ->
     exists m, pattern_match cp text = Some m /\
               match_group m = pattern /\ match_span m = (0, len pattern)%Z) /\
    (String.prefix pattern text = false -> pattern_match cp text = None).
Proof.
  destruct (escaped_matches_literally
              (fun c => contains c Utils.special_chars) pattern text
              Escaping.utils_special_covers Escaping.utils_special_literal)
    as (cp & Hc & Hg & Hm).
  change (escape_with (fun c => contains c Utils.special_chars) pattern)
    with (Utils.escape_special_chars pattern) in Hc.
  exists cp. split; [exact Hc|]. split; [|done].
  unfold Utils.is_valid_pattern. simpl. by rewrite Hc.
Qed.

End EscapeResults.

(** ** [PatternBuilder] and [PatternGenerator] *)

Module BuilderFacts.
Import Sre PatternGenerator.
Local Open Scope list_scope.

Lemma concat_empty_app (l1 l2 : list string) :
  String.concat EmptyString (l1 ++ l2)
  = (String.concat EmptyString l1 ++ String.concat EmptyString l2)%string.
Proof.
  induction l1 as [|x l1 IH]; [done|].
  rewrite <- app_comm_cons, !Escaping.concat_empty_cons, IH.
  by rewrite append_assoc.
Qed.

Lemma escape_with_app special (s1 s2 : string) :
  escape_with special (s1 ++ s2)%string
  = (escape_with special s1 ++ escape_with special s2)%string.
Proof.
  unfold escape_with.
  by rewrite Escaping.list_ascii_of_string_app, map_app, concat_empty_app.
Qed.

Lemma builder_str_snoc (self : PatternBuilder) c :
  builder_str (self ++ [c]) = (builder_str self ++ component_str c)%string.
Proof.
  unfold builder_str. rewrite map_app, concat_empty_app. simpl.
  reflexivity.
Qed.

(** A builder filled by [add] with strings only prints as the escaped
    form of the strings put together. *)
Lemma builder_str_texts (texts : list string) (self : PatternBuilder) :
  builder_str (fold_left (fun b s => add (Text s) b) texts self)
  = (builder_str self ++ escape (String.concat EmptyString texts))%string.
Proof.
  revert self. induction texts as [|t texts IH]; intros self.
  - simpl. by rewrite append_nil_r.
  - cbn [fold_left]. rewrite IH. unfold add. rewrite builder_str_snoc.
    cbn [component_str value quantifier].
    rewrite Escaping.concat_empty_cons. unfold escape.
    by rewrite escape_with_app, append_assoc.
Qed.

End BuilderFacts.

(** [re.escape] makes a pattern that stands for the string itself. *)
Lemma escape_is_literal (whole : string) :
  exists cp : Sre.SrePattern,
    Sre.compile (Sre.escape whole) 0 = Return cp /\
    forall text,
      (String.prefix whole text = true ->
       exists m, Sre.pattern_match cp text = Some m /\ Sre.group0 m = whole) /\
      (String.prefix whole text = false -> Sre.pattern_match cp text = None).
Proof.
  destruct (escaped_matches_literally Sre.is_escape_special whole EmptyString
              Escaping.escape_special_covers Escaping.escape_special_literal)
    as (cp & Hc & _).
  exists cp. split; [exact Hc|]. intros text.
  destruct (escaped_matches_literally Sre.is_escape_special whole text
              Escaping.escape_special_covers Escaping.escape_special_literal)
    as (cp' & Hc' & _ & Hyes & Hno).
  assert (cp' = cp) as -> by congruence.
  split; [|exact Hno].
  intros Hp. destruct (Hyes Hp) as (m & Hm & Hg & _). eauto.
Qed.

Section BuilderResults.
Import PatternGenerator.

(** What a builder filled by [add] with strings only compiles to. *)
Lemma compile_added_texts (texts : list string) :
  let builder := fold_left (fun b s => add (Text s) b) texts [] in
  let whole := String.concat EmptyString texts in
  exists cp : Sre.SrePattern,
    compile (RE := sre) builder = Return cp /\
    forall text,
      (String.prefix whole text = true ->
       exists m, pattern_match cp text = Some m /\ match_group m = whole) /\
      (String.prefix whole text = false -> pattern_match cp text = None).
Proof.
  simpl.
  destruct (escape_is_literal (String.concat EmptyString texts))
    as (cp & Hc & Hm).
  exists cp. split; [|exact Hm].
  unfold compile. rewrite BuilderFacts.builder_str_texts.
  change (builder_str [] ++ ?x)%string with x.
  change (re_compile ?p 0) with (Sre.compile p 0).
  by rewrite Hc.
Qed.

(** X14: Strings given to [add] are matched as they are: a builder filled
    by [add] with strings only compiles, and its pattern matches at the
    start of a text exactly when the text starts with the strings put
    together, in the order they were added. *)
Theorem added_texts_match_literally (texts : list string) :
  let builder := fold_left (fun b s => add (Text s) b) texts [] in
  let whole := String.concat EmptyString texts in
  exists cp : Sre.SrePattern,
    compile (RE := sre) builder = Return cp /\
    forall text,
      (String.prefix whole text = true ->
       exists m, pattern_match cp text = Some m /\ match_group m = whole) /\
      (String.prefix whole text = false -> pattern_match cp text = None).
Proof. exact (compile_added_texts texts). Qed.

(** X15: [PatternGenerator.email] gives its three parts to [add] as
    strings, so they are escaped: the pattern it returns matches the
    text of the intended expression and nothing else.  The address of
    the file's own example is not matched. *)
Theorem email_matches_only_its_own_text :
  let whole := "\w(\.|\-|_)\w*@\w\.(\w){2,63}" in
  exists cp : Sre.SrePattern,
    email (RE := sre) = Return cp /\
    (forall text,
        (exists m, pattern_match cp text = Some m) <->
        String.prefix whole text = true) /\
    pattern_match cp "user.name-123@example.com" = None.
Proof.
  intros whole.
  destruct (compile_added_texts
              ["\w(\.|\-|_)\w*"; "@"; "\w\.(\w){2,63}"])
    as (cp & Hc & Hm).
  exists cp. split; [exact Hc|].
  change (String.concat EmptyString ["\w(\.|\-|_)\w*"; "@"; "\w\.(\w){2,63}"])
    with whole in Hm.
  split.
  - intros text. destruct (Hm text) as [Hyes Hno]. split.
    + intros [m Hs]. destruct (String.prefix whole text); [done|].
      rewrite Hno in Hs; done.
    + intros Hp. destruct (Hyes Hp) as (m & Hs & _). eauto.
  - by apply Hm.
Qed.

(** X16: [PatternGenerator.url] likewise: its pattern matches the text of
    the intended expression only, and not the URL of the file's own
    example. *)
Theorem url_matches_only_its_own_text :
  let whole :=
    "(http://|https://|ftp://)\w*\w\.(\w){2,63}/\w(/|\-|_|\.)\w*" in
  exists cp : Sre.SrePattern,
    url (RE := sre) = Return cp /\
    (forall text,
        (exists m, pattern_match cp text = Some m) <->
        String.prefix whole text = true) /\
    pattern_match cp "https://www.example.com/path/to/resource" = None.
Proof.
  intros whole.
  destruct (compile_added_texts
              ["(http://|https://|ftp://)\w*"; "\w\.(\w){2,63}";
               "/\w(/|\-|_|\.)\w*"])
    as (cp & Hc & Hm).
  exists cp. split; [exact Hc|].
  change (String.concat EmptyString
            ["(http://|https://|ftp://)\w*"; "\w\.(\w){2,63}";
             "/\w(/|\-|_|\.)\w*"])
    with whole in Hm.
  split.
  - intros text. destruct (Hm text) as [Hyes Hno]. split.
    + intros [m Hs]. destruct (String.prefix whole text); [done|].
      rewrite Hno in Hs; done.
    + intros Hp. destruct (Hyes Hp) as (m & Hs & _). eauto.
  - by apply Hm.
Qed.

(** X17: [PatternGenerator.phone_number] knows the country [US] only: any
    other country raises [ValueError].  For [US] the pattern compiles,
    with three groups, and its digit counts are lower bounds. *)
Theorem phone_number_countries (country : string) :
  (country <> "US" ->
   phone_number (RE := sre) country
   = Raise (ValueError ("Pattern for country " ++ country ++ " not implemented"))) /\
  (country = "US" ->
   exists cp : Sre.SrePattern,
     phone_number (RE := sre) country = Return cp /\
     Sre.sp_pattern cp = "\((\d){3,}\)\s(\d){3,}\-(\d){4,}" /\
     pattern_groups cp = 3%nat /\
     (exists m, pattern_match cp "(123) 456-7890" = Some m /\
                match_span m = (0, 14)%Z) /\
     (exists m, pattern_match cp "(12345) 456789-7890123" = Some m /\
                match_span m = (0, 22)%Z) /\
     pattern_match cp "(12) 456-7890" = None).
Proof.
  split.
  - intros Hne. unfold phone_number.
    destruct (String.eqb_spec country "US"); [done|reflexivity].
  - intros ->. eexists. split; [vm_compute; reflexivity|].
    split; [reflexivity|]. split; [reflexivity|].
    split; [eexists; split; vm_compute; reflexivity|].
    split; [eexists; split; vm_compute; reflexivity|].
    vm_compute; reflexivity.
Qed.

End BuilderResults.

(** ** [RegexUtils.extract_pattern_components] *)

Module Components.
Import Py Utils.
Local Open Scope nat_scope.
Local Open Scope list_scope.

Lemma substring_nothing (s : string) i : substring i 0 s = EmptyString.
Proof. revert i. induction s as [|c s IH]; intros [|i]; simpl; auto. Qed.

Lemma substring_clip (s : string) i n :
  String.length s <= i + n -> substring i n s = substring i (String.length s - i) s.
Proof.
  revert i n. induction s as [|c s IH]; intros i n H.
  - destruct i, n; reflexivity.
  - destruct i as [|i].
    + destruct n as [|n]; [simpl in H; lia|].
      simpl. f_equal. rewrite (IH 0 n) by (simpl in H; lia).
      by rewrite Nat.sub_0_r.
    + simpl. apply IH. simpl in H. lia.
Qed.

Lemma substring_past (s : string) i n :
  String.length s <= i -> substring i n s = EmptyString.
Proof.
  intros H. rewrite substring_clip by lia.
  replace (String.length s - i) with 0 by lia. apply substring_nothing.
Qed.

Lemma slice_app_end (s : string) a b :
  a <= b ->
  (slice s a b ++ slice s b (String.length s))%string
  = slice s a (String.length s).
Proof.
  intros H. destruct (Nat.le_gt_cases b (String.length s)) as [Hb|Hb].
  - by apply Slices.slice_app.
  - unfold slice at 2. rewrite substring_past by lia.
    rewrite append_nil_r. unfold slice. apply substring_clip. lia.
Qed.

Lemma slice_nonempty (s : string) a b :
  a < String.length s -> a < b -> slice s a b <> EmptyString.
Proof.
  unfold slice. revert a b. induction s as [|c s IH]; intros a b H1 H2.
  - simpl in H1. lia.
  - destruct a as [|a].
    + destruct b as [|b]; [lia|]. simpl. discriminate.
    + destruct b as [|b]; [lia|]. simpl. apply IH; [simpl in H1|]; lia.
Qed.

Lemma get_slice (s : string) i c :
  String.get i s = Some c -> slice s i (S i) = String c EmptyString.
Proof.
  unfold slice. replace (S i - i) with 1 by lia.
  revert i. induction s as [|a s IH]; intros [|i] H; simpl in *; try done.
  - injection H as ->. by rewrite substring_nothing.
  - by apply IH.
Qed.

Lemma get_lt (s : string) i c : String.get i s = Some c -> i < String.length s.
Proof.
  revert i. induction s as [|a s IH]; intros [|i] H; simpl in *; try done.
  - lia.
  - apply IH in H. lia.
Qed.

Lemma get_None_ge (s : string) i : String.get i s = None -> String.length s <= i.
Proof.
  revert i. induction s as [|a s IH]; intros [|i] H; simpl in *; try done.
  - lia.
  - apply IH in H. lia.
Qed.

Lemma scan_class_le pattern n j : j <= scan_class pattern n j.
Proof.
  revert j. induction n as [|n IH]; intros j; simpl; [lia|].
  destruct (String.get j pattern) as [c|]; [|lia].
  destruct (Ascii.eqb c "]"); [lia|]. specialize (IH (S j)). lia.
Qed.

Lemma scan_group_le pattern n j depth : j <= scan_group pattern n j depth.
Proof.
  revert j depth. induction n as [|n IH]; intros j depth; simpl; [lia|].
  destruct (String.get j pattern) as [c|]; [|lia].
  destruct (depth =? 0); [lia|].
  match goal with |- _ <= scan_group _ _ _ ?d => specialize (IH (S j) d) end.
  lia.
Qed.

Ltac in_categories :=
  unfold categories; simpl;
  first [ left; reflexivity
        | right; left; reflexivity
        | right; right; left; reflexivity
        | right; right; right; left; reflexivity
        | right; right; right; right; left; reflexivity ].

(** One turn of the loop either finds a component, which is the slice
    of the pattern from [i] to the new [i], or is at a backslash that
    ends the pattern and changes nothing. *)
Lemma extract_step_spec pattern i category i' current category' :
  i < String.length pattern ->
  extract_step pattern i category = (i', current, category') ->
  (current <> EmptyString /\ i < i' /\ current = slice pattern i i' /\
   In category' categories) \/
  (current = EmptyString /\ i' = i /\ category' = category /\
   String.get i pattern = Some Sre.backslash /\ i + 1 = String.length pattern).
Proof.
  intros Hi. unfold extract_step.
  destruct (String.get i pattern) as [c|] eqn:Hc.
  2:{ apply get_None_ge in Hc. lia. }
  destruct (Ascii.eqb_spec c Sre.backslash) as [->|Hb].
  - destruct (Nat.ltb_spec (i + 1) (String.length pattern)) as [H1|H1].
    + intros [= <- <- <-]. left. split_and!.
      * apply slice_nonempty; lia.
      * lia.
      * done.
      * in_categories.
    + intros [= <- <- <-]. right. split_and!; try done. lia.
  - destruct (contains c "[]").
    { intros [= <- <- <-]. left.
      pose proof (scan_class_le pattern (String.length pattern) (i + 1)).
      split_and!.
      - apply slice_nonempty; lia.
      - lia.
      - done.
      - in_categories. }
    destruct (contains c "()").
    { intros [= <- <- <-]. left.
      pose proof (scan_group_le pattern (String.length pattern) (i + 1) 1).
      split_and!.
      - apply slice_nonempty; lia.
      - lia.
      - done.
      - in_categories. }
    destruct (contains c ".^$*+?{}|"); intros [= <- <- <-]; left; split_and!;
      try discriminate; try lia; try in_categories;
      (replace (i + 1) with (S i) by lia); symmetry; by apply get_slice.
Qed.

Lemma concat_snoc (l : list string) x :
  String.concat EmptyString (l ++ [x])
  = (String.concat EmptyString l ++ x)%string.
Proof.
  rewrite BuilderFacts.concat_empty_app. simpl. reflexivity.
Qed.

(** What the loop returns, when it returns: the components found so
    far, then components that make up the rest of the pattern. *)
Lemma extract_loop_partition fuel pattern i category acc components :
  extract_loop fuel pattern i category acc = Some components ->
  exists found,
    components = (acc ++ found)%list /\
    String.concat EmptyString (map fst found)
    = slice pattern i (String.length pattern) /\
    Forall (fun c => fst c <> EmptyString /\ In (snd c) categories) found.
Proof.
  revert i category acc.
  induction fuel as [|fuel IH]; intros i category acc; simpl; [done|].
  destruct (Nat.ltb_spec i (String.length pattern)) as [Hi|Hi].
  - destruct (extract_step pattern i category) as [[i' current] category']
      eqn:Hstep.
    intros Hloop. apply IH in Hloop as (found & -> & Hcat & Hall).
    destruct (extract_step_spec _ _ _ _ _ _ Hi Hstep)
      as [(Hne & Hlt & Hcur & Hin)|(-> & -> & _)].
    + destruct (String.eqb_spec current EmptyString) as [|_]; [done|].
      exists ((current, category') :: found). split_and!.
      * by rewrite <- app_assoc.
      * cbn [map fst]. rewrite Escaping.concat_empty_cons, Hcat, Hcur.
        apply slice_app_end. lia.
      * by constructor.
    + simpl. by exists found.
  - intros [= <-]. exists []. split_and!.
    + by rewrite app_nil_r.
    + unfold slice. by rewrite substring_past.
    + constructor.
Qed.

(** With no backslash at the end of the pattern every turn of the loop
    moves on, so the loop ends. *)
Lemma extract_loop_returns fuel pattern i category acc :
  String.get (String.length pattern - 1) pattern <> Some Sre.backslash ->
  String.length pattern - i < fuel ->
  exists components, extract_loop fuel pattern i category acc = Some components.
Proof.
  intros Hlast. revert i category acc.
  induction fuel as [|fuel IH]; intros i category acc Hfuel; [lia|]. simpl.
  destruct (Nat.ltb_spec i (String.length pattern)) as [Hi|Hi]; [|eauto].
  destruct (extract_step pattern i category) as [[i' current] category']
    eqn:Hstep.
  destruct (extract_step_spec _ _ _ _ _ _ Hi Hstep)
    as [(Hne & Hlt & Hcur & Hin)|(_ & -> & _ & Hget & Hlen)].
  - apply IH. lia.
  - exfalso. apply Hlast. by replace (String.length pattern - 1) with i by lia.
Qed.

Lemma length_app (s1 s2 : string) :
  String.length (s1 ++ s2) = String.length s1 + String.length s2.
Proof.
  induction s1 as [|a s1 IH]; [done|].
  change (S (String.length (s1 ++ s2)) = S (String.length s1 + String.length s2)).
  by rewrite IH.
Qed.

Lemma get_app_l (s1 s2 : string) i :
  i < String.length s1 -> String.get i (s1 ++ s2) = String.get i s1.
Proof.
  revert i. induction s1 as [|a s1 IH]; intros i H; [simpl in H; lia|].
  destruct i as [|i]; [done|].
  change (String.get i (s1 ++ s2) = String.get i s1).
  apply IH. simpl in H. lia.
Qed.

Lemma get_app_end (s1 s2 : string) :
  String.get (String.length s1) (s1 ++ s2) = String.get 0 s2.
Proof.
  induction s1 as [|a s1 IH]; [done|]. exact IH.
Qed.

Lemma forallb_get (f : ascii -> bool) (s : string) i c :
  forallb f (list_ascii_of_string s) = true ->
  String.get i s = Some c -> f c = true.
Proof.
  revert i. induction s as [|a s IH]; intros i H Hg; [done|].
  simpl in H. apply andb_true_iff in H as [Ha Hs].
  destruct i as [|i]; simpl in Hg.
  - by injection Hg as <-.
  - by apply (IH i).
Qed.

Lemma extract_loop_hangs fuel (p : string) i category acc :
  forallb plain (list_ascii_of_string p) = true ->
  i <= String.length p ->
  extract_loop fuel (p ++ "\") i category acc = None.
Proof.
  intros Hplain. revert i category acc.
  induction fuel as [|fuel IH]; intros i category acc Hi; [done|].
  simpl. rewrite length_app. simpl String.length.
  destruct (Nat.ltb_spec i (String.length p + 1)) as [_|?]; [|lia].
  unfold extract_step.
  destruct (Nat.eq_dec i (String.length p)) as [->|Hne].
  - rewrite get_app_end. simpl String.get.
    rewrite length_app. simpl String.length.
    change (Ascii.eqb "\" Sre.backslash) with true. cbv iota.
    destruct (Nat.ltb_spec (String.length p + 1) (String.length p + 1));
      [lia|].
    simpl. by apply IH.
  - rewrite get_app_l by lia.
    destruct (String.get i p) as [c|] eqn:Hc;
      [|apply get_None_ge in Hc; lia].
    pose proof (forallb_get _ _ _ _ Hplain Hc) as Hpl.
    unfold plain in Hpl. apply negb_true_iff in Hpl.
    cbn [contains] in Hpl. apply orb_false_iff in Hpl as [H1 Hpl].
    apply orb_false_iff in Hpl as [H2 Hpl].
    apply orb_false_iff in Hpl as [H3 Hpl].
    apply orb_false_iff in Hpl as [H4 Hpl].
    apply orb_false_iff in Hpl as [H5 _].
    rewrite Ascii.eqb_sym in H1.
    unfold Sre.backslash. rewrite H1. cbn [contains].
    rewrite H2, H3, H4, H5. cbn [orb].
    apply IH. lia.
Qed.

Lemma extract_loop_more_fuel fuel pattern i category acc components :
  extract_loop fuel pattern i category acc = Some components ->
  extract_loop (S fuel) pattern i category acc = Some components.
Proof.
  revert i category acc.
  induction fuel as [|fuel IH]; intros i category acc; [done|].
  intros H. simpl in H.
  change (extract_loop (S (S fuel)) pattern i category acc)
    with (if i <? String.length pattern
          then let '(i', current, category') := extract_step pattern i category in
               extract_loop (S fuel) pattern i' category'
                 (if String.eqb current EmptyString then acc
                  else acc ++ [(current, category')])
          else Some acc).
  destruct (i <? String.length pattern); [|done].
  destruct (extract_step pattern i category) as [[i' current] category'].
  by apply IH.
Qed.

Lemma extract_loop_fuel_le fuel fuel' pattern i category acc components :
  fuel <= fuel' ->
  extract_loop fuel pattern i category acc = Some components ->
  extract_loop fuel' pattern i category acc = Some components.
Proof.
  induction 1 as [|fuel' _ IH]; [done|].
  intros H. by apply extract_loop_more_fuel, IH.
Qed.

End Components.

Section ComponentResults.
Import Utils.

(** X18: Whenever [extract_pattern_components] returns, the components it
    lists are the pattern cut into pieces: none is empty, put together
    in order they give the pattern back, and each has one of the five
    category names. *)
Theorem extract_pattern_components_partition (fuel : nat) (pattern : string)
    (components : list (string * string)) :
  extract_pattern_components fuel pattern = Some components ->
  String.concat EmptyString (map fst components) = pattern /\
  Forall (fun c => fst c <> EmptyString /\ In (snd c) categories) components.
Proof.
  intros H. apply Components.extract_loop_partition in H
    as (found & -> & Hcat & Hall).
  rewrite app_nil_l. split; [|exact Hall].
  rewrite Hcat. apply Slices.slice_all.
Qed.

(** X19: A pattern that does not end with a backslash is always taken
    apart: one more turn of the loop than the pattern has characters is
    enough, and more turns give the same components. *)
Theorem extract_pattern_components_returns (pattern : string) :
  String.get (String.length pattern - 1) pattern <> Some Sre.backslash ->
  exists components,
    forall fuel, (String.length pattern < fuel)%nat ->
                 extract_pattern_components fuel pattern = Some components.
Proof.
  intros Hlast.
  destruct (Components.extract_loop_returns (S (String.length pattern)) pattern
              0 EmptyString [] Hlast) as [components Hc]; [lia|].
  exists components. intros fuel Hfuel.
  eapply Components.extract_loop_fuel_le; [|exact Hc]. lia.
Qed.

(** X20: On a backslash that ends the pattern the loop of
    [extract_pattern_components] does not move on: for a pattern of
    characters it takes one at a time followed by a backslash, no number
    of turns is enough. *)
Theorem extract_pattern_components_hangs (fuel : nat) (p : string) :
  forallb plain (list_ascii_of_string p) = true ->
  extract_pattern_components fuel (p ++ "\") = None.
Proof.
  intros Hplain. apply Components.extract_loop_hangs; [exact Hplain|lia].
Qed.

End ComponentResults.

(** ** [RegexUtils.transform_syntax] *)

Module Transforms.
Import Py Utils.

(** A replacement brings in no character that neither the string nor
    the new text has. *)
Lemma replace_from_keeps_out c old new skip s :
  contains c s = false -> contains c new = false ->
  contains c (replace_from old new skip s) = false.
Proof.
  intros Hs Hnew. revert skip Hs.
  induction s as [|a s IH]; intros skip Hs; [done|].
  simpl in Hs. apply orb_false_iff in Hs as [Ha Hs].
  cbn [replace_from]. destruct skip as [|k]; [|by apply IH].
  destruct (String.prefix old (String a s)).
  - rewrite contains_append, Hnew. by apply IH.
  - simpl. rewrite Ha. by apply IH.
Qed.

Lemma str_replace_keeps_out c old new s :
  old <> EmptyString ->
  contains c s = false -> contains c new = false ->
  contains c (str_replace old new s) = false.
Proof.
  intros Hold Hs Hnew. unfold str_replace.
  destruct (String.eqb_spec old EmptyString); [done|].
  by apply replace_from_keeps_out.
Qed.

(** Replacing a character by a text without it leaves none. *)
Lemma replace_char_removes c new s :
  contains c new = false ->
  contains c (replace_from (String c EmptyString) new 0 s) = false.
Proof.
  intros Hnew. induction s as [|a s IH]; [done|].
  cbn [replace_from String.prefix String.length Nat.sub].
  destruct (ascii_dec c a) as [<-|Hne].
  - destruct (String.prefix EmptyString s) eqn:Hp.
    + by rewrite contains_append, Hnew.
    + by destruct s.
  - cbn [contains]. rewrite IH.
    destruct (Ascii.eqb_spec a c) as [->|_]; [done|reflexivity].
Qed.

End Transforms.

Section TransformResults.
Import Utils.

(** X21: From the [js] to the [python] flavour every [^] and every [$] of
    the pattern is rewritten, wherever it stands: the result holds
    neither character.  A negated class such as [[^a]] so becomes
    [[\Aa]].  A pair of flavours that has no entry leaves the pattern
    as it is. *)
Theorem js_to_python_rewrites_every_anchor (pattern : string) :
  contains "^" (transform_syntax pattern "js" "python") = false /\
  contains "$" (transform_syntax pattern "js" "python") = false /\
  transform_syntax "[^a]" "js" "python" = "[\Aa]" /\
  forall from_flavor to_flavor,
    Sre.assoc_lookup (from_flavor ++ "_to_" ++ to_flavor) SYNTAX_TRANSFORMS = None ->
    transform_syntax pattern from_flavor to_flavor = pattern.
Proof.
  split_and!.
  - change (transform_syntax pattern "js" "python")
      with (str_replace "$" "\Z"
              (str_replace "^" "\A"
                 (str_replace "(?<name>...)" "(?P<name>...)" pattern))).
    apply Transforms.str_replace_keeps_out; [done| |reflexivity].
    by apply Transforms.replace_char_removes.
  - change (transform_syntax pattern "js" "python")
      with (str_replace "$" "\Z"
              (str_replace "^" "\A"
                 (str_replace "(?<name>...)" "(?P<name>...)" pattern))).
    by apply Transforms.replace_char_removes.
  - reflexivity.
  - intros from_flavor to_flavor Hkey. unfold transform_syntax.
    by rewrite Hkey.
Qed.

End TransformResults.

(** ** Instances of the further properties *)

Section FurtherInstances.
Import RegexTester.

(** [a+] is compiled, the cache is cleared, and [a+] is compiled again:
    the same object comes back. *)
Lemma clear_cache_keeps_objects_plus :
  exists o s1,
    compile_pattern (RE := sre) "a+" 0 init = (Return o, s1) /\
    compile_pattern "a+" 0 (clear_cache s1)
    = (Return o,
       mkState {[ cache_key "a+" 0 := o ]} (re_calls s1 ++ [("a+", 0%Z)])%list).
Proof.
  assert (Hc : Sre.compile "a+" 0
               = Return (Sre.mkSrePattern "a+" 32 0 []
                           (Sre.Cat (Sre.MAX_REPEAT 1 Sre.MAXREPEAT
                                       (Sre.LITERAL "a")) Sre.Empty)))
    by (vm_compute; reflexivity).
  destruct (compile_pattern_valid (RE := sre) init "a+" 0 _
              (reachable_cache_ok init reachable_init) Hc)
    as (o & s1 & H1 & _ & Hl & _).
  exists o, s1. split; [exact H1|].
  assert (Hs1 : s1 = snd (compile_pattern (RE := sre) "a+" 0 init))
    by (by rewrite H1).
  apply (clear_cache_keeps_objects (RE := sre) s1 "a+" 0 o).
  - rewrite Hs1. apply reachable_compile, reachable_init.
  - rewrite Hs1. unfold compile_pattern. cbn [init _cache re_calls].
    rewrite lookup_empty. change (re_compile "a+" 0) with (Sre.compile "a+" 0).
    rewrite Hc. cbn [snd re_calls app length]. unfold _MAXCACHE. lia.
  - reflexivity.
  - exact Hl.
Defined.

(** The entry of [a] is still there after [b] was compiled. *)
Lemma cache_entries_persist_a_b :
  exists o s1,
    compile_pattern (RE := sre) "a" 0 init = (Return o, s1) /\
    _cache (snd (compile_pattern "b" 0 s1)) !! cache_key "a" 0 = Some o.
Proof.
  destruct (compile_pattern_valid (RE := sre) init "a" 0
              (Sre.mkSrePattern "a" 32 0 [] (Sre.Cat (Sre.LITERAL "a") Sre.Empty))
              (reachable_cache_ok init reachable_init) eq_refl)
    as (o & s1 & H1 & _ & Hl & _).
  exists o, s1. split; [exact H1|].
  destruct (cache_entries_persist (RE := sre) s1 (cache_key "a" 0) o
              "b" EmptyString EmptyString 0 Hl) as [H _].
  exact H.
Defined.

(** [validate_pattern] and [compile_pattern] on an unclosed parenthesis. *)
Lemma validate_pattern_agrees_unclosed :
  validate_pattern (RE := sre) "(" = Return false /\
  exists msg, fst (compile_pattern (RE := sre) "(" 0 init)
              = Raise (RegexError msg).
Proof.
  destruct (validate_pattern_agrees (RE := sre) init "(" reachable_init)
    as [_ [H _]].
  split; [vm_compute; reflexivity|].
  apply H. vm_compute. reflexivity.
Defined.



(** Replacing every match of [a+] in ["aab"] by itself. *)
Lemma replace_by_whole_match_plus :
  replace (RE := sre) "a+" "aab" "\g<0>" 0 init
  = (Return "aab", snd (compile_pattern (RE := sre) "a+" 0 init)).
Proof.
  apply (replace_by_whole_match_is_identity init _ "a+" "aab" 0
           (mkPatternObj (RE := sre) 0
              (Sre.mkSrePattern "a+" 32 0 []
                 (Sre.Cat (Sre.MAX_REPEAT 1 Sre.MAXREPEAT (Sre.LITERAL "a"))
                    Sre.Empty)))).
  transitivity (fst (compile_pattern (RE := sre) "a+" 0 init),
                snd (compile_pattern (RE := sre) "a+" 0 init)).
  - destruct (compile_pattern (RE := sre) "a+" 0 init). reflexivity.
  - f_equal; vm_compute; reflexivity.
Defined.

(** [a] does not occur in ["b"], and yet a template that refers to a
    group the pattern does not have makes [replace] raise the
    [re.error] of the template, as it is. *)
Lemma replace_hands_errors_on_a_b :
  replace (RE := sre) "a" "b" "x" 0 init
  = (Return "b", snd (compile_pattern (RE := sre) "a" 0 init)) /\
  replace (RE := sre) "a" "b" "\1" 0 init
  = (Raise (Uncaught (ReError (mk_re_error "invalid group reference 1"
                                 (Some "\1") (Some 1%nat)))),
     snd (compile_pattern (RE := sre) "a" 0 init)).
Proof.
  assert (Hc : compile_pattern (RE := sre) "a" 0 init
               = (Return (mkPatternObj (RE := sre) 0
                            (Sre.mkSrePattern "a" 32 0 []
                               (Sre.Cat (Sre.LITERAL "a") Sre.Empty))),
                  snd (compile_pattern (RE := sre) "a" 0 init))).
  { transitivity (fst (compile_pattern (RE := sre) "a" 0 init),
                  snd (compile_pattern (RE := sre) "a" 0 init)).
    - destruct (compile_pattern (RE := sre) "a" 0 init). reflexivity.
    - f_equal; vm_compute; reflexivity. }
  split.
  - apply (proj1 (replace_hands_errors_on (RE := sre) init _ "a" "b" "x" 0 _ Hc)).
    vm_compute. reflexivity.
  - apply (proj1 (proj2 (replace_hands_errors_on (RE := sre) init _ "a" "b" "\1"
                           0 _ Hc))).
    vm_compute. reflexivity.
Defined.

End FurtherInstances.

Section FurtherValidationInstances.
Import Exceptions.


End FurtherValidationInstances.

Section UtilsInstances.
Import Utils.

(** The pattern [a.b] escaped matches the text ["a.bc"] at its start,
    and not ["axbc"]. *)
Lemma escape_special_chars_is_literal_dot :
  exists (cp : Sre.SrePattern) m,
    re_compile (escape_special_chars "a.b") 0 = Return cp /\
    pattern_match cp "a.bc" = Some m /\
    match_group m = "a.b" /\
    pattern_match cp "axbc" = None.
Proof.
  destruct (escape_special_chars_is_literal "a.b" "a.bc")
    as (cp & Hc & _ & _ & Hyes & _).
  destruct (Hyes eq_refl) as (m & Hm & Hg & _).
  destruct (escape_special_chars_is_literal "a.b" "axbc")
    as (cp' & Hc' & _ & _ & _ & Hno).
  assert (cp' = cp) as -> by congruence.
  exists cp, m. split; [exact Hc|]. split; [exact Hm|]. split; [exact Hg|].
  apply Hno. reflexivity.
Defined.

(** The components of [a[bc](d)\.]. *)
Lemma extract_pattern_components_partition_example :
  String.concat EmptyString
    (map fst [("a", "literal"); ("[bc]", "character_class"); ("(d)", "group");
              ("\.", "escape_sequence")])
  = "a[bc](d)\." /\
  Forall (fun c => fst c <> EmptyString /\ In (snd c) categories)
    [("a", "literal"); ("[bc]", "character_class"); ("(d)", "group");
     ("\.", "escape_sequence")].
Proof.
  apply (extract_pattern_components_partition 20 "a[bc](d)\.").
  vm_compute. reflexivity.
Defined.

(** [a[bc](d)\.] does not end with a backslash. *)
Lemma extract_pattern_components_returns_example :
  exists components,
    forall fuel, (String.length "a[bc](d)\." < fuel)%nat ->
                 extract_pattern_components fuel "a[bc](d)\." = Some components.
Proof.
  apply (extract_pattern_components_returns "a[bc](d)\.").
  vm_compute. discriminate.
Defined.

(** A thousand turns of the loop are not enough for [ab\]. *)
Lemma extract_pattern_components_hangs_example :
  extract_pattern_components 1000 "ab\" = None.
Proof.
  apply (extract_pattern_components_hangs 1000 "ab"). reflexivity.
Defined.

End UtilsInstances.

Section GeneratorInstances.
Import PatternGenerator.

(** What was added as ["a.b"] and ["+"] matches the text ["a.b+c"] at
    its start. *)
Lemma added_texts_match_literally_example :
  exists (cp : Sre.SrePattern) m,
    compile (RE := sre) (add (Text "+") (add (Text "a.b") [])) = Return cp /\
    pattern_match cp "a.b+c" = Some m /\ match_group m = "a.b+".
Proof.
  destruct (added_texts_match_literally ["a.b"; "+"]) as (cp & Hc & Hm).
  destruct (proj1 (Hm "a.b+c") eq_refl) as (m & Hs & Hg).
  exists cp, m. split; [exact Hc|]. split; [exact Hs|exact Hg].
Defined.

(** No pattern for [UK]. *)
Lemma phone_number_countries_uk :
  phone_number (RE := sre) "UK"
  = Raise (ValueError "Pattern for country UK not implemented").
Proof.
  apply (proj1 (phone_number_countries "UK")). discriminate.
Defined.

End GeneratorInstances.

(** ** [RegexDocumenter]: describing a quantifier *)

Module Quantifiers.
Import RegexDocumenter.

Lemma string_of_uint_digits d c :
  contains c (NilEmpty.string_of_uint d) = true ->
  contains c digits_and_sign = true.
Proof.
  induction d; cbn [NilEmpty.string_of_uint contains]; [done|..];
    (intros H; apply orb_true_iff in H as [H|H]; [|by apply IHd]);
    apply Ascii.eqb_eq in H; subst c; reflexivity.
Qed.

(** [str] of an integer is made of digits and a sign. *)
Lemma str_int_digits n c :
  contains c (str_int n) = true -> contains c digits_and_sign = true.
Proof.
  unfold str_int, NilZero.string_of_int, NilZero.string_of_uint.
  assert (Hu : forall d,
             contains c match d with
                        | Nil => "0"
                        | _ => NilEmpty.string_of_uint d
                        end = true ->
             contains c digits_and_sign = true).
  { intros d. destruct d; try apply string_of_uint_digits.
    cbn [contains]. intros H. apply orb_true_iff in H as [H|H]; [|done].
    apply Ascii.eqb_eq in H. by subst c. }
  destruct (Z.to_int n) as [d|d]; [apply Hu|].
  cbn [contains]. intros H. apply orb_true_iff in H as [H|H]; [|exact (Hu d H)].
  apply Ascii.eqb_eq in H. by subst c.
Qed.

Lemma str_int_nonempty n : str_int n <> EmptyString.
Proof.
  unfold str_int, NilZero.string_of_int, NilZero.string_of_uint.
  destruct (to_int_not_nil n) as [Hp Hn].
  destruct (Z.to_int n) as [d|d]; [|discriminate].
  destruct d; discriminate || done.
Qed.

Lemma split_none sep (a : string) :
  contains sep a = false -> split sep a = (a, []).
Proof.
  induction a as [|c a IH]; [done|]. cbn [contains split]. intros H.
  apply orb_false_iff in H as [Hc Ha]. rewrite (IH Ha).
  by rewrite Hc.
Qed.

Lemma split_app sep (a b : string) :
  contains sep a = false ->
  split sep (a ++ String sep b)
  = (a, fst (split sep b) :: snd (split sep b)).
Proof.
  induction a as [|c a IH]; intros H.
  - change (EmptyString ++ String sep b) with (String sep b). cbn [split].
    destruct (split sep b). by rewrite Ascii.eqb_refl.
  - cbn [contains] in H. apply orb_false_iff in H as [Hc Ha].
    change (String c a ++ String sep b) with (String c (a ++ String sep b)).
    cbn [split]. rewrite (IH Ha). by rewrite Hc.
Qed.

Lemma substring_0_app_l (a b : string) :
  substring 0 (String.length a) (a ++ b) = a.
Proof.
  induction a as [|c a IH]; simpl.
  - by destruct b.
  - change (String c a ++ b) with (String c (a ++ b)). by rewrite IH.
Qed.

(** The text between the braces. *)
Lemma slice_braces (a : string) :
  slice ("{" ++ a ++ "}") 1 (String.length ("{" ++ a ++ "}") - 1) = a.
Proof.
  unfold slice.
  change ("{" ++ a ++ "}") with (String "{" (a ++ "}")).
  cbn [String.length]. rewrite Components.length_app. cbn [String.length].
  replace (S (String.length a + 1) - 1 - 1)%nat with (String.length a) by lia.
  cbn [substring]. apply substring_0_app_l.
Qed.

Lemma lookup_braces (a : string) :
  contains "m" (substring 0 1 a) = false ->
  Sre.assoc_lookup ("{" ++ a ++ "}") QUANTIFIER_DESC = None.
Proof.
  intros H. change ("{" ++ a ++ "}") with (String "{" (a ++ "}")).
  destruct a as [|c r]; [reflexivity|].
  cbn [substring contains] in H. destruct r; cbn [substring] in H.
  all: cbn [contains] in H; apply orb_false_iff in H as [H _].
  all: change (String c ?r ++ "}") with (String c (r ++ "}")).
  all: unfold QUANTIFIER_DESC; cbn [Sre.assoc_lookup String.eqb Ascii.eqb Bool.eqb andb].
  all: rewrite H; reflexivity.
Qed.

(** What [_describe_quantifier] makes of a quantifier in braces. *)
Lemma describe_in_braces (a : string) :
  contains "m" (substring 0 1 a) = false ->
  describe_quantifier_str ("{" ++ a ++ "}")
  = match split "," a with
    | (n0, []) => "exactly " ++ n0 ++ " times"
    | (n0, n1 :: _) =>
        if String.eqb n1 EmptyString then "at least " ++ n0 ++ " times"
        else "between " ++ n0 ++ " and " ++ n1 ++ " times"
    end.
Proof.
  intros H. unfold describe_quantifier_str. cbv zeta.
  rewrite (lookup_braces a H), slice_braces.
  reflexivity.
Qed.

Lemma str_int_first n (c : ascii) :
  contains c digits_and_sign = false ->
  contains c (str_int n) = false /\
  forall rest, contains c (substring 0 1 (str_int n ++ rest)) = false.
Proof.
  intros Hc.
  assert (H : contains c (str_int n) = false).
  { destruct (contains c (str_int n)) eqn:E; [|done].
    apply str_int_digits in E. congruence. }
  split; [exact H|]. intros rest.
  pose proof (str_int_nonempty n) as Hne.
  destruct (str_int n) as [|a r]; [done|].
  change (String a r ++ rest) with (String a (r ++ rest)).
  cbn [contains] in H. apply orb_false_iff in H as [H _].
  cbn [substring]. destruct (r ++ rest); cbn [substring contains]; by rewrite H.
Qed.

End Quantifiers.

Section QuantifierResults.
Import RegexDocumenter.

(** X22: [_describe_quantifier] reads back from the quantifier string the
    counts [_get_quantifier_str] printed into it: its answer is never
    empty and names the counts given. *)
Theorem describe_quantifier_names_the_counts (min_count max_count : Z) :
  _describe_quantifier min_count max_count
  = if Z.eqb min_count 0 && Z.eqb max_count MAXREPEAT then "zero or more times"
    else if Z.eqb min_count 1 && Z.eqb max_count MAXREPEAT then "one or more times"
    else if Z.eqb min_count 0 && Z.eqb max_count 1 then "optionally"
    else if Z.eqb min_count max_count
         then "exactly " ++ str_int min_count ++ " times"
    else if Z.eqb max_count MAXREPEAT
         then "at least " ++ str_int min_count ++ " times"
    else "between " ++ str_int min_count ++ " and " ++ str_int max_count
         ++ " times".
Proof.
  unfold _describe_quantifier, _get_quantifier_str. cbv zeta.
  destruct (Z.eqb min_count 0 && Z.eqb max_count MAXREPEAT); [reflexivity|].
  destruct (Z.eqb min_count 1 && Z.eqb max_count MAXREPEAT); [reflexivity|].
  destruct (Z.eqb min_count 0 && Z.eqb max_count 1); [reflexivity|].
  destruct (Quantifiers.str_int_first min_count "m" eq_refl) as [_ Hm].
  destruct (Quantifiers.str_int_first min_count "," eq_refl) as [Hmin _].
  destruct (Quantifiers.str_int_first max_count "," eq_refl) as [Hmax _].
  destruct (Z.eqb min_count max_count).
  - specialize (Hm EmptyString). rewrite append_nil_r in Hm.
    rewrite (Quantifiers.describe_in_braces _ Hm).
    by rewrite (Quantifiers.split_none _ _ Hmin).
  - destruct (Z.eqb max_count MAXREPEAT).
    + replace ("{" ++ str_int min_count ++ ",}")
        with ("{" ++ (str_int min_count ++ ",") ++ "}")
        by (rewrite append_assoc; reflexivity).
      rewrite (Quantifiers.describe_in_braces _ (Hm _)).
        by rewrite (Quantifiers.split_app _ _ _ Hmin).
    + replace ("{" ++ str_int min_count ++ "," ++ str_int max_count ++ "}")
        with ("{" ++ (str_int min_count ++ "," ++ str_int max_count) ++ "}")
        by (by rewrite !append_assoc).
      rewrite (Quantifiers.describe_in_braces _ (Hm _)).
        change ("," ++ str_int max_count) with (String "," (str_int max_count)).
      rewrite (Quantifiers.split_app _ _ _ Hmin).
      rewrite (Quantifiers.split_none _ _ Hmax). cbn [fst snd].
      pose proof (Quantifiers.str_int_nonempty max_count) as Hne.
      destruct (String.eqb_spec (str_int max_count) EmptyString); done.
Qed.

End QuantifierResults.

(** ** The messages of the errors *)

Ltac flatten_appends :=
  repeat first
    [ rewrite append_assoc
    | progress change (String ?c ?s ++ ?t) with (String c (s ++ t))
    | progress change (EmptyString ++ ?t) with t ].

Section Messages.
Import Exceptions.

(** X23: The text of every error [find_pattern] raises: each names the
    pattern; the error of a missing match also quotes the input string
    and gives the position 0, the error of an invalid pattern carries
    the text of the [re.error]. *)
Theorem find_pattern_error_messages `{RE : ReModule}
    (pattern text : string) (raise_if_not_found : bool) (e : exn) :
  find_pattern pattern text raise_if_not_found = Raise e ->
  match e with
  | EmptyPatternError context =>
      pattern = EmptyString /\
      _format_message context = "Error with pattern '': Empty pattern provided"
  | InvalidRegexError context =>
      exists err,
        re_compile pattern 0 = Raise (ReError err) /\
        _format_message context
        = "Error with pattern '" ++ pattern ++ "'" ++
          (if String.eqb (re_error_str err) EmptyString then EmptyString
           else ": " ++ re_error_str err)
  | PatternNotFoundError context =>
      raise_if_not_found = true /\
      _format_message context
      = "Error with pattern '" ++ pattern ++
        "': Pattern not found in input string" ++
        String newline ("Input string: '" ++ text ++ "'" ++
        String newline "Position: 0")
  | Uncaught err =>
      re_compile pattern 0 = Raise err /\ forall e', err <> ReError e'
  end.
Proof.
  unfold find_pattern, validate_regex.
  destruct (String.eqb_spec pattern EmptyString) as [->|Hne].
  { intros [= <-]. split; reflexivity. }
  destruct (re_compile pattern 0) as [cp|err] eqn:Hc.
  - destruct (pattern_search cp text); [done|].
    destruct raise_if_not_found; [|done].
    intros [= <-]. split; [done|].
    unfold _format_message. cbn [Exceptions.pattern message input_string position].
    change (String.eqb "Pattern not found in input string" EmptyString) with false.
    cbv iota. change (str_int 0) with "0". flatten_appends. reflexivity.
  - destruct err; intros [= <-]; try (split; [done|discriminate]).
    eexists. split; [done|].
    unfold _format_message. cbn [Exceptions.pattern message input_string position].
    destruct (String.eqb (re_error_str _) EmptyString);
      flatten_appends; reflexivity.
Qed.

End Messages.

Section MessageInstances.
Import Exceptions.

(** The message of the error for [\d+] in ["no numbers here"]. *)
Lemma find_pattern_error_messages_digits :
  exists context,
    find_pattern (RE := sre) "\d+" "no numbers here" true
    = Raise (PatternNotFoundError context) /\
    _format_message context
    = "Error with pattern '\d+': Pattern not found in input string" ++
      String newline ("Input string: 'no numbers here'" ++
      String newline "Position: 0").
Proof.
  eexists. split; [vm_compute; reflexivity|].
  apply (find_pattern_error_messages (RE := sre) "\d+" "no numbers here" true
           (PatternNotFoundError _)).
  vm_compute. reflexivity.
Defined.

End MessageInstances.

(** ** The number of matches of [find_all] *)

Module FindAllBound.
Import Sre.
Local Open Scope nat_scope.

(** Every match leaves less to search: twice the characters after the
    position, and one more when the next match may be empty there. *)
Lemma finditer_loop_length p text fuel pos (must_advance : bool) :
  pos <= String.length text ->
  length (finditer_loop p text fuel pos must_advance)
  <= 2 * (String.length text - pos) + (if must_advance then 0 else 1).
Proof.
  revert pos must_advance. induction fuel as [|fuel IH];
    intros pos must_advance Hpos; simpl; [lia|].
  destruct (sre_search p text pos must_advance) as [[[s e] mk]|] eqn:Hs;
    simpl; [|lia].
  apply FindAll.sre_search_advances in Hs as (H1 & H2 & Hadv); [|done].
  assert (He : e <= String.length text) by lia.
  specialize (IH e (Nat.eqb e s) He).
  destruct (Nat.eqb_spec e s) as [E|Hne];
    destruct must_advance; try specialize (Hadv eq_refl); lia.
Qed.

(** The loop of [finditer] ends by a search that finds nothing, never
    by the bound on its turns: more turns change nothing. *)
Lemma finditer_loop_fuel p text fuel pos (must_advance : bool) :
  pos <= String.length text ->
  2 * (String.length text - pos) + (if must_advance then 0 else 1) < fuel ->
  finditer_loop p text (S fuel) pos must_advance
  = finditer_loop p text fuel pos must_advance.
Proof.
  revert pos must_advance. induction fuel as [|fuel IH];
    intros pos must_advance Hpos Hfuel; [lia|].
  change (finditer_loop p text (S (S fuel)) pos must_advance)
    with (match sre_search p text pos must_advance with
          | None => []
          | Some (s, e, m) =>
              mkSreMatch text p s e m
              :: finditer_loop p text (S fuel) e (Nat.eqb e s)
          end).
  change (finditer_loop p text (S fuel) pos must_advance)
    with (match sre_search p text pos must_advance with
          | None => []
          | Some (s, e, m) =>
              mkSreMatch text p s e m
              :: finditer_loop p text fuel e (Nat.eqb e s)
          end).
  destruct (sre_search p text pos must_advance) as [[[s e] mk]|] eqn:Hs;
    [|done].
  apply FindAll.sre_search_advances in Hs as (H1 & H2 & Hadv); [|done].
  f_equal. apply IH; [lia|].
  destruct (Nat.eqb_spec e s) as [E|Hne];
    destruct must_advance; try specialize (Hadv eq_refl); lia.
Qed.

End FindAllBound.

(** Spans that follow each other as those of [finditer] do, inside a
    text of [n] characters, are at most [2 * n + 1]. *)
Lemma ordered_spans_length (n : Z) (spans : list (Z * Z)) :
  (0 <= n)%Z ->
  (forall i a, spans !! i = Some a ->
     0 <= fst a /\ fst a <= snd a /\ snd a <= n)%Z ->
  (forall i a b, spans !! i = Some a -> spans !! S i = Some b ->
     snd a <= fst b /\ (fst a < fst b \/ snd a < snd b))%Z ->
  (Z.of_nat (length spans) <= 2 * n + 1)%Z.
Proof.
  intros Hn Hb Ho.
  assert (H : forall a rest, spans = (a :: rest)%list ->
            (Z.of_nat (length spans) <= 2 * n + 1 - (fst a + snd a))%Z).
  { clear -Hb Ho. induction spans as [|a0 spans IH]; intros a rest E; [done|].
    injection E as -> ->.
    pose proof (Hb 0%nat a eq_refl) as Ha.
    destruct rest as [|b rest].
    - simpl. lia.
    - pose proof (Ho 0%nat a b eq_refl eq_refl) as Hab.
      pose proof (Hb 1%nat b eq_refl) as Hbb.
      assert (IH' := IH (fun i x => Hb (S i) x)
                        (fun i x y => Ho (S i) x y) b rest eq_refl).
      cbn [length] in *. lia. }
  destruct spans as [|a rest]; [simpl; lia|].
  pose proof (H a rest eq_refl). pose proof (Hb 0%nat a eq_refl). lia.
Qed.

Section FindAllBoundResults.
Import RegexTester.

(** X24: [find_all] returns at most two matches for each character of the
    text, and one more.  This holds of every pattern and flags, for
    every implementation of [re] whose [finditer] and match objects are
    as documented. *)
Theorem find_all_bounded `{RE : ReModule} (Hre : ReSpec)
    (s s' : State) (pattern text : string) (flags : Z) (rs : list MatchResult) :
  find_all pattern text flags s = (Return rs, s') ->
  (length rs <= 2 * String.length text + 1)%nat.
Proof.
  intros H. unfold find_all in H.
  destruct (compile_pattern pattern flags s) as [[o|e] s1]; [|done].
  injection H as <- <-. rewrite length_map.
  pose proof (ordered_spans_length (len text)
                (map match_span (pattern_finditer (obj_pattern o) text))) as Hl.
  rewrite length_map in Hl. unfold len in Hl.
  enough (Z.of_nat (length (pattern_finditer (obj_pattern o) text))
          <= 2 * Z.of_nat (String.length text) + 1)%Z by lia.
  apply Hl.
  - lia.
  - intros i a Ha. apply list_lookup_fmap_Some in Ha as (m & -> & Hm).
    apply (re_span_bounds Hre (obj_pattern o)). right; right.
    by apply list_elem_of_lookup_2 in Hm.
  - intros i a b Ha Hb.
    apply list_lookup_fmap_Some in Ha as (m1 & -> & Hm1).
    apply list_lookup_fmap_Some in Hb as (m2 & -> & Hm2).
    exact (re_finditer_order Hre _ _ _ _ _ Hm1 Hm2).
Qed.

End FindAllBoundResults.

Section FindAllBoundInstances.
Import RegexTester.

(** The empty pattern is found three times in ["ab"]. *)
Lemma find_all_bounded_empty_pattern :
  exists rs,
    fst (find_all (RE := sre) EmptyString "ab" 0 init) = Return rs /\
    length rs = 3%nat /\ (length rs <= 2 * String.length "ab" + 1)%nat.
Proof.
  eexists. split; [vm_compute; reflexivity|]. split; [reflexivity|].
  apply (find_all_bounded (RE := sre) sre_spec init
           (snd (find_all (RE := sre) EmptyString "ab" 0 init))
           EmptyString "ab" 0).
  transitivity (fst (find_all (RE := sre) EmptyString "ab" 0 init),
                snd (find_all (RE := sre) EmptyString "ab" 0 init)).
  - destruct (find_all (RE := sre) EmptyString "ab" 0 init). reflexivity.
  - f_equal; vm_compute; reflexivity.
Defined.

End FindAllBoundInstances.

(** ** [RegexDocumenter]: showing a character set *)

Module Charsets.
Import RegexDocumenter.


End Charsets.

Section CharsetResults.
Import RegexDocumenter.


End CharsetResults.
